(** * SheetTable: the [load] pipeline of the starksheet web application

    Shallow embedding of
    [packages/starksheet-webapp/src/components/SheetTable/SheetTable.tsx].

    The component fetches the cells of a sheet from a contract, merges them
    into a fixed-size grid, resolves the contract address of every cell
    (literally, or through the computed value of another cell), looks the
    ABI up and stores the grid in shared state.

    Promises are modelled by what the component can observe of them: the
    requests and state updates a callback performs, in program order, and
    whether the promise is fulfilled or rejected. *)

From Stdlib Require Import ZArith String Ascii HexString List Lia.
From stdpp Require Import base option list gmap strings pretty.

Open Scope string_scope.
Open Scope list_scope.
Open Scope Z_scope.

(** ** What the component imports

    [config], [utils/constants], [utils/hexUtils], [types] and the
    [FunctionAbi] type of the chain library are not part of this file: they
    are taken as parameters. [normalizeHexString] receives
    [result.result[0]], which is undefined ([None]) when the result array is
    empty; a [None] result stands for an exception. [Array(GRID_SIZE)] needs
    a valid array length, that is one below [2^32].

    The id of a cell is a value of [types], a number or a big number at run
    time: the component gives it to [getCell] and reads it through
    [cell.id.toString()] (line 148), nothing else. [toString] is that
    reading, whatever the value is, and [number_id n] is the number [n] as
    an id (line 26). *)
Class Imports := {
  FunctionAbi : Type;
  SheetCalldata : Type;
  TokenId : Type;
  toString : TokenId -> string;
  number_id : Z -> TokenId;
  GRID_SIZE : nat;
  N_COL : nat;
  N_ROW : nat;
  RC_BOUND : Z;
  bn2hex : Z -> string;
  hex2str : string -> option string;
  normalizeHexString : option string -> option string;
  GRID_SIZE_array_length : Z.of_nat GRID_SIZE < 2 ^ 32
}.

(** ** Settled promises *)

Inductive settled (A : Type) : Type :=
| Fulfilled (a : A)
| Rejected.
Arguments Fulfilled {A} a.
Arguments Rejected {A}.

Definition is_fulfilled {A} (r : settled A) : bool :=
  match r with Fulfilled _ => true | Rejected => false end.

(** [Promise.all] on the outcomes: fulfilled with every value when every
    promise is fulfilled, rejected as soon as one is. *)
Fixpoint all_settled {A} (rs : list (settled A)) : settled (list A) :=
  match rs with
  | [] => Fulfilled []
  | Fulfilled a :: rs' =>
      match all_settled rs' with
      | Fulfilled l => Fulfilled (a :: l)
      | Rejected => Rejected
      end
  | Rejected :: _ => Rejected
  end.

(** [BN.toNumber] of the chain library: it asserts that the number fits in
    53 bits. *)
Definition toNumber (b : Z) : settled Z :=
  if Z.abs b <? 2 ^ 53 then Fulfilled b else Rejected.

(** [array[n]] for a number [n]: undefined outside of the array. *)
Definition js_index {A} (array : list A) (n : Z) : option A :=
  if 0 <=? n then array !! Z.to_nat n else None.

(** ** Column names: [(i + 9).toString(36).toUpperCase()] *)

Definition digit36 (d : nat) : ascii :=
  if (d <? 10)%nat then ascii_of_nat (48 + d) else ascii_of_nat (87 + d).

Fixpoint toString36_go (fuel n : nat) (acc : string) : string :=
  match fuel with
  | O => acc
  | S fuel' =>
      let acc' := String (digit36 (n mod 36)) acc in
      if (n / 36 =? 0)%nat then acc' else toString36_go fuel' (n / 36) acc'
  end.

Definition toString36 (n : nat) : string := toString36_go (S n) n "".

Definition upper_ascii (c : ascii) : ascii :=
  let n := nat_of_ascii c in
  if ((97 <=? n) && (n <=? 122))%nat then ascii_of_nat (n - 32) else c.

Fixpoint toUpperCase (s : string) : string :=
  match s with
  | EmptyString => EmptyString
  | String c s' => String (upper_ascii c) (toUpperCase s')
  end.

(** Reading a name back in base 36, in either case, as [parseInt(name, 36)]
    does. The component never reads a name back: this is the inverse that
    shows that two columns never share a name. *)
Definition digit_value (c : ascii) : nat :=
  let n := nat_of_ascii c in
  if ((48 <=? n) && (n <=? 57))%nat then (n - 48)%nat
  else if ((97 <=? n) && (n <=? 122))%nat then (n - 87)%nat
  else if ((65 <=? n) && (n <=? 90))%nat then (n - 55)%nat
  else 0%nat.

Fixpoint parseInt36_go (k : nat) (s : string) : nat :=
  match s with
  | EmptyString => k
  | String c s' => parseInt36_go (36 * k + digit_value c) s'
  end.

Definition parseInt36 (s : string) : nat := parseInt36_go 0 s.

(** ** [parseInt(string)] of the language

    Leading white space is skipped, a sign is read, the prefix [0x] or [0X]
    makes the radix 16 and the radix is 10 otherwise; then the digits are
    read up to the first character that is not one. The result is [None]
    (the number NaN) when no digit was read. The strings here are made of
    one-byte characters. *)
Definition is_space (c : ascii) : bool :=
  let n := nat_of_ascii c in
  ((n =? 32) || ((9 <=? n) && (n <=? 13)))%nat.

Fixpoint skip_spaces (s : string) : string :=
  match s with
  | EmptyString => EmptyString
  | String c s' => if is_space c then skip_spaces s' else s
  end.

Definition digit_of (radix : nat) (c : ascii) : option nat :=
  let n := nat_of_ascii c in
  let d :=
    if ((48 <=? n) && (n <=? 57))%nat then Some (n - 48)%nat
    else if ((97 <=? n) && (n <=? 122))%nat then Some (n - 87)%nat
    else if ((65 <=? n) && (n <=? 90))%nat then Some (n - 55)%nat
    else None in
  match d with
  | Some v => if (v <? radix)%nat then Some v else None
  | None => None
  end.

Fixpoint read_digits (radix : nat) (s : string) (acc : option Z) : option Z :=
  match s with
  | EmptyString => acc
  | String c s' =>
      match digit_of radix c with
      | Some d =>
          read_digits radix s'
            (Some (Z.of_nat radix * default 0 acc + Z.of_nat d))
      | None => acc
      end
  end.

Definition read_sign (s : string) : Z * string :=
  match s with
  | String "-" s' => (-1, s')
  | String "+" s' => (1, s')
  | _ => (1, s)
  end.

Definition read_radix (s : string) : nat * string :=
  match s with
  | String "0" (String "x" s') => (16%nat, s')
  | String "0" (String "X" s') => (16%nat, s')
  | _ => (10%nat, s)
  end.

Definition parseInt (s : string) : option Z :=
  let (sign, s1) := read_sign (skip_spaces s) in
  let (radix, s2) := read_radix s1 in
  Z.mul sign <$> read_digits radix s2 None.

(** ** Inherited keys

    What every object inherits from [Object.prototype], with the [length]
    of the inherited value ([None] where it has no [length]): [key in
    object] and [object[key]] find these keys too. *)
Definition inherited_length (key : string) : option (option nat) :=
  if String.eqb key "constructor" then Some (Some 1%nat)
  else if String.eqb key "hasOwnProperty" then Some (Some 1%nat)
  else if String.eqb key "isPrototypeOf" then Some (Some 1%nat)
  else if String.eqb key "propertyIsEnumerable" then Some (Some 1%nat)
  else if String.eqb key "toLocaleString" then Some (Some 0%nat)
  else if String.eqb key "toString" then Some (Some 0%nat)
  else if String.eqb key "valueOf" then Some (Some 0%nat)
  else if String.eqb key "__defineGetter__" then Some (Some 2%nat)
  else if String.eqb key "__defineSetter__" then Some (Some 2%nat)
  else if String.eqb key "__lookupGetter__" then Some (Some 1%nat)
  else if String.eqb key "__lookupSetter__" then Some (Some 1%nat)
  else if String.eqb key "__proto__" then Some None
  else None.

Section SheetTable.
Context `{Imports}.

(** ** Data model ([types]) *)

Record CellRendered := {
  id : TokenId;
  owner : Z;
  value : Z;
  error : option bool
}.

Record CellData := {
  contractAddress : Z;
  selector : Z;
  calldata : list Z
}.

(** [Cell = CellRendered & CellData & { abi?: FunctionAbi }]: the
    intersection is kept as its three parts. *)
Record Cell := {
  rendered : CellRendered;
  data : CellData;
  abi : option FunctionAbi
}.

Record Sheet := {
  name : string;
  symbol : string;
  sheet_address : string;
  sheet_calldata : option SheetCalldata
}.

Record SheetStatus := {
  loading : bool;
  status_error : bool;
  message : string
}.

(** The partial status object given to [updateSheetStatus]. *)
Record StatusUpdate := {
  set_loading : option bool;
  set_error : option bool;
  set_message : option string
}.

(** ** Requests and state updates, in the order the component performs
    them *)
Inductive event :=
| UpdateSheetStatus (address : string) (status : StatusUpdate)
| CallContract (contractAddress entrypoint : string)
| AppendSheet (sheet : Sheet)
| RenderCells
| GetCell (tokenId : TokenId)
| GetAbiForContract (address : string)
| SetValues (address : string) (cells : list Cell)
| Navigate (path : string).

(** ** The collaborators: what every request is answered with *)

Record SheetContract := {
  renderCells : settled (list CellRendered);
  getCell : TokenId -> settled CellData
}.

Record World := {
  callContract : string -> string -> settled (list string);
  contract : option SheetContract;
  getAbiForContract : string -> settled (gmap string FunctionAbi)
}.

(** ** Shared state of the contexts, as one render sees it *)
Record State := {
  appStatus_sheets : gmap string SheetStatus;
  values : gmap string (list Cell);
  onsheet_sheets : list Sheet;
  location : string
}.

(** ** Promises: the events of the callbacks, and the outcome *)

Definition Promise (A : Type) : Type := (list event * settled A)%type.

Definition resolve {A} (a : A) : Promise A := ([], Fulfilled a).
Definition reject {A} : Promise A := ([], Rejected).

Definition and_then {A B} (f : A -> Promise B) (p : Promise A) : Promise B :=
  match p.2 with
  | Fulfilled a => (p.1 ++ (f a).1, (f a).2)
  | Rejected => (p.1, Rejected)
  end.

#[global] Instance Promise_ret : MRet Promise := @resolve.
#[global] Instance Promise_bind : MBind Promise := @and_then.

(** A request sent now and awaited. *)
Definition await {A} (request : event) (response : settled A) : Promise A :=
  ([request], response).

(** A state update or a navigation: an event and no value. *)
Definition perform (e : event) : Promise unit := ([e], Fulfilled tt).

(** [Promise.all(xs.map(f))]: every callback runs up to its first await, so
    every request is sent, whatever the outcome of the others. *)
Definition Promise_all {A} (ps : list (Promise A)) : Promise (list A) :=
  (concat (fst <$> ps), all_settled (snd <$> ps)).

(** ** Defaults (lines 25-35) *)

Definition defaultRenderedCell (tokenId : Z) : CellRendered :=
  {| id := number_id tokenId; owner := 0; value := 0; error := None |}.

Definition defaultCellData (tokenId : Z) : CellData :=
  {| contractAddress := RC_BOUND; selector := 0; calldata := [] |}.

Definition defaultCell (i : Z) : Cell :=
  {| rendered := defaultRenderedCell i; data := defaultCellData i; abi := None |}.

(** ** [colNames] (lines 57-63) *)
Definition colNames : list string :=
  drop 1 ((fun i => toUpperCase (toString36 (i + 9))) <$> seq 0 (N_COL + 1)).

(** ** The body of [load] *)

Definition updateSheetStatus (address : string) (status : StatusUpdate)
  : Promise unit :=
  perform (UpdateSheetStatus address status).

Definition status_message (m : string) : StatusUpdate :=
  {| set_loading := None; set_error := None; set_message := Some m |}.

(** Lines 113-118: the callback of the name and symbol lookups. *)
Definition decode_result (result : list string) : option string :=
  normalizeHexString (head result) ≫= hex2str.

Definition register_sheet (w : World) (address : string) : Promise unit :=
  response ← Promise_all
    [ ([], callContract w address "name");
      ([], callContract w address "symbol") ];
  match decode_result <$> response with
  | [Some name; Some symbol] =>
      perform (AppendSheet {| name := name; symbol := symbol;
                              sheet_address := address;
                              sheet_calldata := None |})
  | _ => reject
  end.

(** Lines 124-138: the callback of [renderCells], one [getCell] per
    rendered cell. *)
Definition fetch_cell (c : SheetContract) (cell : CellRendered) : Promise Cell :=
  _cell ← await (GetCell (id cell)) (getCell c (id cell));
  mret {| rendered := {| id := id cell; owner := owner cell;
                         value := value cell; error := error cell |};
          data := _cell;
          abi := None |}.

Definition fetch_cells (c : SheetContract) (address : string)
  : Promise (list Cell) :=
  renderedCells ← ([], renderCells c);
  _ ← updateSheetStatus address (status_message "Fetching cells metadata");
  Promise_all (fetch_cell c <$> renderedCells).

(** Line 148: the key of a fetched cell, [parseInt(cell.id.toString())];
    [None] is the key of NaN. The number is kept exact here. From [2^53] on
    the key the object uses is the one of the nearest number, which is
    [2^53] or more as well: no such key is ever read, since the keys read
    are the grid indices, below [2^32]. *)
Definition cell_key (cell : Cell) : option Z :=
  parseInt (toString (id (rendered cell))).

(** Lines 145-151: the fetched cells by key, a later cell replacing an
    earlier one with the same key. *)
Definition index_cells (cells : list Cell) : gmap (option Z) Cell :=
  foldl (fun prev cell => <[cell_key cell := cell]> prev) ∅ cells.

(** Lines 154-161: one entry per grid index, the default where no cell was
    fetched. *)
Definition grid_of (cells : list Cell) : list Cell :=
  (fun i : nat => default (defaultCell (Z.of_nat i))
                          (index_cells cells !! Some (Z.of_nat i)))
    <$> seq 0 GRID_SIZE.

(** Lines 163-167. Reading [.value] of an undefined entry throws. *)
Definition resolvedContractAddress (array : list Cell) (cell : Cell)
  : settled Z :=
  if contractAddress (data cell) <? RC_BOUND then
    match toNumber (contractAddress (data cell)) with
    | Fulfilled n =>
        match js_index array n with
        | Some target => Fulfilled (value (rendered target))
        | None => Rejected
        end
    | Rejected => Rejected
    end
  else Fulfilled (contractAddress (data cell)).

(** Lines 162-175: the callback mapped over the grid. *)
Definition with_abi (w : World) (array : list Cell) (cell : Cell)
  : Promise Cell :=
  resolved ← ([], resolvedContractAddress array cell);
  abi ← await (GetAbiForContract (bn2hex resolved))
              (getAbiForContract w (bn2hex resolved));
  mret {| rendered := rendered cell; data := data cell;
          abi := abi !! bn2hex (selector (data cell)) |}.

(** Lines 141-177. *)
Definition finalize (w : World) (address : string) (cells : list Cell)
  : Promise (list Cell) :=
  _ ← updateSheetStatus address (status_message "Finalizing sheet data");
  let array := grid_of cells in
  Promise_all (with_abi w array <$> array).

(** Lines 178-183. *)
Definition store (address : string) (cells : list Cell) : Promise unit :=
  perform (SetValues address cells).

(** The two variables of lines 96-97. *)
Record Locals := {
  local_error : bool;
  finalMessage : string
}.

Definition newline : string := String (ascii_of_nat 10) "".
Definition indent : string := "              ".

Definition error_message (address : string) : string :=
  "Error: Starksheet cannot render sheet at address " +:+ address +:+ newline
  +:+ indent +:+ "<br />" +:+ newline
  +:+ indent +:+ "<br />" +:+ newline
  +:+ indent
  +:+ "Double check address or create a new sheet by clicking on the + button".

(** Lines 184-192. The parameter of the callback is named [error] too:
    [error = true] assigns the parameter, and the variable of line 96 keeps
    its value. [finalMessage] is the variable of line 97. *)
Definition on_rejected (address : string) (l : Locals) : list event * Locals :=
  let error_parameter := true in
  ([Navigate "/"],
   {| local_error := local_error l; finalMessage := error_message address |}).

(** Lines 193-199. *)
Definition on_settled (address : string) (l : Locals) : list event :=
  [UpdateSheetStatus address
     {| set_loading := Some false;
        set_error := Some (local_error l);
        set_message := Some (finalMessage l) |}].

(** [.catch(...).finally(...)] on a promise. *)
Definition catch_finally {A} (address : string) (l : Locals) (p : Promise A)
  : list event :=
  match p.2 with
  | Fulfilled _ => p.1 ++ on_settled address l
  | Rejected =>
      let '(evs, l') := on_rejected address l in
      p.1 ++ evs ++ on_settled address l'
  end.

(** What one call of [load] does: the events of the call itself, those of
    the callback of the metadata lookup, and those of the main chain. The
    two promises are independent: their callbacks may interleave. *)
Record Run := {
  sync : list event;
  metadata : list event;
  chain : list event
}.

Definition no_run : Run := {| sync := []; metadata := []; chain := [] |}.

Definition is_loading (s : State) (address : string) : bool :=
  match appStatus_sheets s !! address with
  | Some status => loading status
  | None => false
  end.

(** Lines 88-91. For a key that [values] does not hold itself, [in] and
    the lookup find what the object inherits, and [length !== 0] is asked
    of that: it holds of a value without [length]. *)
Definition has_values (s : State) (address : string) : bool :=
  match values s !! address with
  | Some cells => negb (length cells =? 0)%nat
  | None =>
      match inherited_length address with
      | Some (Some n) => negb (n =? 0)%nat
      | Some None => true
      | None => false
      end
  end.

Definition find_sheet (s : State) (address : string) : option Sheet :=
  find (fun sheet => String.eqb (sheet_address sheet) address) (onsheet_sheets s).

Definition has_calldata (sheet : option Sheet) : bool :=
  match sheet with
  | Some sh => bool_decide (is_Some (sheet_calldata sh))
  | None => false
  end.

(** The promise [cells] of lines 120-139, without the [renderCells] request
    itself, which is sent by the call. *)
Definition cells_promise (c : SheetContract) (sheet : option Sheet)
    (address : string) : Promise (list Cell) :=
  if has_calldata sheet then resolve [] else fetch_cells c address.

Definition main_chain (w : World) (c : SheetContract) (sheet : option Sheet)
    (address : string) : Promise unit :=
  (cells_promise c sheet address ≫= finalize w address) ≫= store address.

Definition load (w : World) (s : State) (address : string) : Run :=
  if String.eqb address "" then no_run else
  match contract w with
  | None => no_run
  | Some c =>
      let _selectedSheetAddress := address in
      if is_loading s _selectedSheetAddress then no_run else
      let started :=
        UpdateSheetStatus _selectedSheetAddress
          {| set_loading := Some true; set_error := Some false;
             set_message := None |} in
      if has_values s _selectedSheetAddress then
        {| sync :=
             [started;
              UpdateSheetStatus _selectedSheetAddress
                {| set_loading := Some false; set_error := None;
                   set_message := None |}];
           metadata := [];
           chain := [] |}
      else
        let locals := {| local_error := false; finalMessage := "" |} in
        let sheet := find_sheet s address in
        {| sync :=
             [started;
              UpdateSheetStatus _selectedSheetAddress
                (status_message "Rendering grid values")]
             ++ match sheet with
                | Some _ => []
                | None => [CallContract address "name";
                           CallContract address "symbol"]
                end
             ++ (if has_calldata sheet then [] else [RenderCells]);
           metadata :=
             match sheet with
             | Some _ => []
             | None => (register_sheet w address).1
             end;
           chain :=
             catch_finally _selectedSheetAddress locals
               (main_chain w c sheet _selectedSheetAddress) |}
  end.

(** ** The shared state after the events *)

(** Modelled from the spec: the status of a sheet that has none yet.
    [AppStatusContext] is not part of this file; the status of a sheet is a
    loading flag, an error flag and a message. *)
Definition defaultSheetStatus : SheetStatus :=
  {| loading := false; status_error := false; message := "" |}.

(** Modelled from the spec: what [updateSheetStatus] of [AppStatusContext]
    does with the partial status it is given. The fields given replace the
    stored ones and the others are kept. *)
Definition merge_status (old : SheetStatus) (u : StatusUpdate) : SheetStatus :=
  {| loading := default (loading old) (set_loading u);
     status_error := default (status_error old) (set_error u);
     message := default (message old) (set_message u) |}.

(** Modelled from the spec: [updateSheetStatus] of [AppStatusContext], on
    the statuses keyed by sheet address. *)
Definition update_status (sheets : gmap string SheetStatus)
    (address : string) (u : StatusUpdate) : gmap string SheetStatus :=
  <[address := merge_status (default defaultSheetStatus (sheets !! address)) u]>
    sheets.

(** Modelled from the spec: [appendSheet] of [OnsheetContext], which is not
    part of this file. The sheet created on the first visit of an address
    comes after the known ones. *)
Definition append_sheet (sheets : list Sheet) (sheet : Sheet) : list Sheet :=
  sheets ++ [sheet].

(** The effect of one event. [setValues] is given its update at lines
    179-182; [navigate] replaces the route; a request changes nothing. *)
Definition apply_event (s : State) (e : event) : State :=
  match e with
  | UpdateSheetStatus address u =>
      {| appStatus_sheets := update_status (appStatus_sheets s) address u;
         values := values s;
         onsheet_sheets := onsheet_sheets s;
         location := location s |}
  | SetValues address cells =>
      {| appStatus_sheets := appStatus_sheets s;
         values := <[address := cells]> (values s);
         onsheet_sheets := onsheet_sheets s;
         location := location s |}
  | AppendSheet sheet =>
      {| appStatus_sheets := appStatus_sheets s;
         values := values s;
         onsheet_sheets := append_sheet (onsheet_sheets s) sheet;
         location := location s |}
  | Navigate path =>
      {| appStatus_sheets := appStatus_sheets s;
         values := values s;
         onsheet_sheets := onsheet_sheets s;
         location := path |}
  | CallContract _ _ | RenderCells | GetCell _ | GetAbiForContract _ => s
  end.

Definition run_events (s : State) (evs : list event) : State :=
  foldl apply_event s evs.

Definition is_request (e : event) : bool :=
  match e with
  | CallContract _ _ | RenderCells | GetCell _ | GetAbiForContract _ => true
  | _ => false
  end.

(** ** Schedules *)

Inductive interleave {A : Type} : list A -> list A -> list A -> Prop :=
| interleave_nil : interleave [] [] []
| interleave_left x l1 l2 l :
    interleave l1 l2 l -> interleave (x :: l1) l2 (x :: l)
| interleave_right x l1 l2 l :
    interleave l1 l2 l -> interleave l1 (x :: l2) (x :: l).

(** A complete trace of a run: the call, then the callbacks of the two
    promises in any order that keeps the order of each. *)
Definition schedule (r : Run) (tr : list event) : Prop :=
  exists m, interleave (metadata r) (chain r) m /\ tr = sync r ++ m.

(** A trace up to a point where the main chain has not settled: its last
    callback has not run yet. *)
Definition in_flight (r : Run) (tr : list event) : Prop :=
  exists md ch rest_md rest_ch m,
    metadata r = md ++ rest_md /\
    chain r = ch ++ rest_ch /\ rest_ch <> [] /\
    interleave md ch m /\ tr = sync r ++ m.

(** ** The rows of the component (lines 243-274) *)

(** [cells] of lines 52-55; [None] is undefined. The address is looked up
    among the keys [values] holds itself: the rows are those of an address
    that is not one of the inherited keys. *)
Definition cells_of (s : State) (address : string) : option (list Cell) :=
  if String.eqb address "" then Some [] else values s !! address.

Definition shows_grid (s : State) (address : string) : bool :=
  negb (String.eqb address "")
  && match appStatus_sheets s !! address with
     | Some status => negb (loading status)
     | None => false
     end
  && match cells_of s address with
     | Some cells => (length cells =? GRID_SIZE)%nat
     | None => false
     end.

(** Every row is its label and its cells, each with its key. *)
Definition SheetTable_rows (s : State) (address : string)
  : list (nat * list (string * option Cell)) :=
  if shows_grid s address then
    let cells := default [] (cells_of s address) in
    (fun rowIndex : nat =>
       ((rowIndex + 1)%nat,
        imap (fun (colIndex : nat) (name : string) =>
                (name +:+ pretty (rowIndex + 1)%nat,
                 cells !! (colIndex + N_COL * rowIndex)%nat))
             colNames))
      <$> seq 0 N_ROW
  else [].

(** ** Classes of events *)

(** What the callbacks before the handlers do: they ask for a cell or an
    ABI, or change the message of a status and nothing else. *)
Definition is_progress (e : event) : bool :=
  match e with
  | UpdateSheetStatus _ u =>
      match set_loading u, set_error u with
      | None, None => true
      | _, _ => false
      end
  | GetCell _ | GetAbiForContract _ => true
  | _ => false
  end.

Definition is_status_update (e : event) : bool :=
  match e with UpdateSheetStatus _ _ => true | _ => false end.

Definition is_set_values (e : event) : bool :=
  match e with SetValues _ _ => true | _ => false end.

Definition is_append_sheet (e : event) : bool :=
  match e with AppendSheet _ => true | _ => false end.

Definition is_navigate (e : event) : bool :=
  match e with Navigate _ => true | _ => false end.

Definition is_call_contract (e : event) : bool :=
  match e with CallContract _ _ => true | _ => false end.

(** An event that leaves the loading flag of [address] as it is. *)
Definition keeps_loading (address : string) (e : event) : bool :=
  match e with
  | UpdateSheetStatus a u =>
      negb (String.eqb a address)
      || match set_loading u with None => true | Some _ => false end
  | _ => true
  end.

(** The call of [load] gets past its guards (lines 67-94) and starts the
    main chain on the contract [c]. *)
Definition starts_chain (w : World) (s : State) (address : string)
    (c : SheetContract) : Prop :=
  address <> "" /\ contract w = Some c /\
  is_loading s address = false /\ has_values s address = false.

(** The first status update of a call that gets past the loading guard,
    and the shape of the one that ends a chain. *)
Definition first_update : StatusUpdate :=
  {| set_loading := Some true; set_error := Some false; set_message := None |}.

Definition last_update (flag : bool) (m : string) : StatusUpdate :=
  {| set_loading := Some false; set_error := Some flag; set_message := Some m |}.

(** The three ways the main chain can go. *)
Inductive chain_outcome (w : World) (c : SheetContract) (sheet : option Sheet)
    (a : string) : Prop :=
| outcome_stored cells out :
    (cells_promise c sheet a).2 = Fulfilled cells ->
    (finalize w a cells).2 = Fulfilled out ->
    main_chain w c sheet a
    = (((cells_promise c sheet a).1 ++ (finalize w a cells).1)
         ++ [SetValues a out], Fulfilled tt) ->
    chain_outcome w c sheet a
| outcome_not_finalized cells :
    (cells_promise c sheet a).2 = Fulfilled cells ->
    (finalize w a cells).2 = Rejected ->
    main_chain w c sheet a
    = ((cells_promise c sheet a).1 ++ (finalize w a cells).1, Rejected) ->
    chain_outcome w c sheet a
| outcome_not_fetched :
    (cells_promise c sheet a).2 = Rejected ->
    main_chain w c sheet a = ((cells_promise c sheet a).1, Rejected) ->
    chain_outcome w c sheet a.

(** ** The address of the ABI lookup, as the specification gives it

    A contract address below the reserved bound refers to the cell at that
    grid index, and the address looked up is the computed value of that
    cell; any other contract address is looked up as it is. *)
Inductive abi_address (array : list Cell) (cell : Cell) : Z -> Prop :=
| abi_address_reference (n : nat) (target : Cell) :
    contractAddress (data cell) < RC_BOUND ->
    contractAddress (data cell) = Z.of_nat n ->
    array !! n = Some target ->
    abi_address array cell (value (rendered target))
| abi_address_literal :
    RC_BOUND <= contractAddress (data cell) ->
    abi_address array cell (contractAddress (data cell)).

Definition abi_request (e : event) : option string :=
  match e with GetAbiForContract a => Some a | _ => None end.

(** The addresses the ABI is asked for, in order. *)
Definition abi_requests (evs : list event) : list string :=
  omap abi_request evs.

Definition fulfilled_value {A} (r : settled A) : option A :=
  match r with Fulfilled a => Some a | Rejected => None end.

Definition is_render_cells (e : event) : bool :=
  match e with RenderCells => true | _ => false end.

Definition is_get_cell (e : event) : bool :=
  match e with GetCell _ => true | _ => false end.

Definition is_get_abi (e : event) : bool :=
  match e with GetAbiForContract _ => true | _ => false end.

(** How many events of a kind a trace has. *)
Definition count (kind : event -> bool) (evs : list event) : nat :=
  length (List.filter kind evs).

(** The number of cells [renderCells] answers with. *)
Definition rendered_count (c : SheetContract) : nat :=
  match renderCells c with
  | Fulfilled renderedCells => length renderedCells
  | Rejected => 0%nat
  end.

(** A kind of request: no other event is of that kind. *)
Definition request_kind (kind : event -> bool) : Prop :=
  forall e, is_request e = false -> kind e = false.

Definition all_events (r : Run) : list event :=
  sync r ++ metadata r ++ chain r.

Definition cell_at (rows : list (nat * list (string * option Cell)))
    (rowIndex colIndex : nat) : option (option Cell) :=
  row ← rows !! rowIndex;
  snd <$> (row.2 !! colIndex).

(** ** The callback and the render that made it

    [load] is made by [useCallback] (lines 65-203). It reads [appStatus],
    [values] and [onsheet] of the render that made it, and it is made anew
    only when one of the dependencies of line 202 changes; [appStatus] is
    not one of them. [shared] is the state of the contexts, [captured] the
    one the callback reads. *)
Record Render := {
  shared : State;
  captured : State
}.

Definition call_load (w : World) (r : Render) (address : string) : Run :=
  load w (captured r) address.

(** Events change the shared state; the callback is the same one. *)
Definition after_events (r : Render) (evs : list event) : Render :=
  {| shared := run_events (shared r) evs; captured := captured r |}.

(** A render that makes the callback anew. *)
Definition fresh_callback (r : Render) : Render :=
  {| shared := shared r; captured := shared r |}.

(** ** The rendered rows, read back *)

(** The keys and the cells of a row (lines 267-272). *)
Definition row_keys (row : nat * list (string * option Cell)) : list string :=
  fst <$> row.2.

Definition row_cells (row : nat * list (string * option Cell))
  : list (option Cell) :=
  snd <$> row.2.

(** ** Events and addresses *)

(** An event that changes neither the status nor the stored cells of a
    sheet other than [address]. *)
Definition keeps_other_sheets (address : string) (e : event) : bool :=
  match e with
  | UpdateSheetStatus a _ | SetValues a _ => String.eqb a address
  | _ => true
  end.

(** The placeholder of index [i] once its ABI has been looked up in
    [abi_map]. *)
Definition stored_default (abi_map : gmap string FunctionAbi) (i : nat) : Cell :=
  {| rendered := defaultRenderedCell (Z.of_nat i);
     data := defaultCellData (Z.of_nat i);
     abi := abi_map !! bn2hex 0 |}.

(** The requests for a cell, in order. *)
Definition get_cell_requests (evs : list event) : list TokenId :=
  omap (fun e => match e with GetCell i => Some i | _ => None end) evs.

End SheetTable.

(** ** A small sheet: three columns, two rows

    In the small sheet an id is given by what it prints as: ["1"] is the
    number 1 and ["1e+21"] the number [10^21]. An integer below [10^21]
    prints as its digits. A felt is read as text, two hexadecimal digits a
    character. *)

Definition starts_0x (s : string) : bool :=
  match s with
  | String a (String b _) => Ascii.eqb a "0" && Ascii.eqb b "x"
  | _ => false
  end.

Definition strip_0x (s : string) : string :=
  if starts_0x s then
    match s with
    | String _ (String _ s') => s'
    | _ => s
    end
  else s.

Definition hex_table : list (ascii * N) :=
  [("0"%char, 0%N); ("1"%char, 1%N); ("2"%char, 2%N); ("3"%char, 3%N);
   ("4"%char, 4%N); ("5"%char, 5%N); ("6"%char, 6%N); ("7"%char, 7%N);
   ("8"%char, 8%N); ("9"%char, 9%N); ("a"%char, 10%N); ("b"%char, 11%N);
   ("c"%char, 12%N); ("d"%char, 13%N); ("e"%char, 14%N); ("f"%char, 15%N);
   ("A"%char, 10%N); ("B"%char, 11%N); ("C"%char, 12%N); ("D"%char, 13%N);
   ("E"%char, 14%N); ("F"%char, 15%N)].

Definition hex_digit (c : ascii) : N :=
  match List.find (fun entry => Ascii.eqb c (fst entry)) hex_table with
  | Some entry => snd entry
  | None => 0%N
  end.

Fixpoint hex_text (s : string) : string :=
  match s with
  | String a (String b s') =>
      String (ascii_of_N (16 * hex_digit a + hex_digit b)) (hex_text s')
  | _ => EmptyString
  end.

Fixpoint decimal_go (fuel n : nat) (acc : string) : string :=
  match fuel with
  | O => acc
  | S fuel' =>
      let acc' := String (ascii_of_nat (48 + n mod 10)) acc in
      if (n / 10 =? 0)%nat then acc' else decimal_go fuel' (n / 10) acc'
  end.

Definition decimal (n : Z) : string :=
  if n <? 0 then "-" +:+ decimal_go (S (Z.to_nat (- n))) (Z.to_nat (- n)) ""
  else decimal_go (S (Z.to_nat n)) (Z.to_nat n) "".

Definition small_sheet : Imports := {|
  FunctionAbi := string;
  SheetCalldata := unit;
  TokenId := string;
  toString := fun printed => printed;
  number_id := decimal;
  GRID_SIZE := 6;
  N_COL := 3;
  N_ROW := 2;
  RC_BOUND := 2 ^ 128;
  bn2hex := HexString.of_Z;
  hex2str := fun s => Some (hex_text (strip_0x s));
  normalizeHexString := fmap (fun s => "0x" +:+ strip_0x s);
  GRID_SIZE_array_length := eq_refl
|}.

(** The answers of the chain to the two lookups: ["Sheet"] and ["SHT"] as
    felts. *)
Definition metadata_answer (entrypoint : string) : list string :=
  if String.eqb entrypoint "name" then ["5368656574"] else ["0x534854"].

Section SmallSheet.
#[local] Existing Instance small_sheet.

Definition empty_state : State :=
  {| appStatus_sheets := ∅; values := ∅; onsheet_sheets := [];
     location := "/0x1" |}.

Definition cell_data (a : Z) : CellData :=
  {| contractAddress := a; selector := 7; calldata := [] |}.

Definition rendered_cell (i v : Z) : CellRendered :=
  {| id := number_id i; owner := 1; value := v; error := None |}.

Definition fetched_cell (i v a : Z) : Cell :=
  {| rendered := rendered_cell i v; data := cell_data a; abi := None |}.

Definition stored_cell (i v a : Z) : Cell :=
  {| rendered := rendered_cell i v; data := cell_data a;
     abi := Some "transfer" |}.

(** Cell 1 refers to cell 0, cells 0 and 4 have a literal address. *)
Definition good_contract : SheetContract :=
  {| renderCells := Fulfilled [rendered_cell 0 (2 ^ 130); rendered_cell 1 5;
                               rendered_cell 4 9];
     getCell := fun i =>
       Fulfilled (cell_data (if String.eqb i "1" then 0
                             else 2 ^ 129 + default 0 (parseInt i))) |}.

Definition good_world : World :=
  {| callContract := fun _ entrypoint => Fulfilled (metadata_answer entrypoint);
     contract := Some good_contract;
     getAbiForContract := fun _ => Fulfilled {[ "0x7" := "transfer" ]} |}.

Definition good_cells : list Cell :=
  [fetched_cell 0 (2 ^ 130) (2 ^ 129); fetched_cell 1 5 0;
   fetched_cell 4 9 (2 ^ 129 + 4)].

Definition good_grid : list Cell :=
  [stored_cell 0 (2 ^ 130) (2 ^ 129); stored_cell 1 5 0;
   defaultCell 2; defaultCell 3;
   stored_cell 4 9 (2 ^ 129 + 4); defaultCell 5].

(** [renderCells] fails. *)
Definition failing_contract : SheetContract :=
  {| renderCells := Rejected; getCell := fun _ => Rejected |}.

Definition failing_world : World :=
  {| callContract := fun _ entrypoint => Fulfilled (metadata_answer entrypoint);
     contract := Some failing_contract;
     getAbiForContract := fun _ => Fulfilled ∅ |}.

(** The lookup of the name fails, and the sheet has no cell yet. *)
Definition blank_contract : SheetContract :=
  {| renderCells := Fulfilled []; getCell := fun _ => Rejected |}.

Definition unnamed_world : World :=
  {| callContract := fun _ entrypoint =>
       if String.eqb entrypoint "name" then Rejected
       else Fulfilled (metadata_answer entrypoint);
     contract := Some blank_contract;
     getAbiForContract := fun _ => Fulfilled ∅ |}.

(** Cell 1 refers to index 6, one past the last cell of the grid. *)
Definition stray_contract : SheetContract :=
  {| renderCells := Fulfilled [rendered_cell 1 5];
     getCell := fun _ => Fulfilled (cell_data 6) |}.

Definition stray_world : World :=
  {| callContract := fun _ entrypoint => Fulfilled (metadata_answer entrypoint);
     contract := Some stray_contract;
     getAbiForContract := fun _ => Fulfilled ∅ |}.

Definition stray_cells : list Cell := [fetched_cell 1 5 6].

(** A load of ["0x1"] is under way. *)
Definition loading_state : State :=
  {| appStatus_sheets :=
       {[ "0x1" := {| loading := true; status_error := false;
                      message := "Rendering grid values" |} ]};
     values := ∅; onsheet_sheets := []; location := "/0x1" |}.

(** The cells of ["0x1"] are stored already. *)
Definition stored_state : State :=
  {| appStatus_sheets := ∅;
     values := {[ "0x1" := good_grid ]};
     onsheet_sheets := []; location := "/0x1" |}.

(** The sheet ["0x1"] is known. *)
Definition known_state : State :=
  {| appStatus_sheets := ∅; values := ∅;
     onsheet_sheets := [ {| name := "Sheet"; symbol := "SHT";
                            sheet_address := "0x1";
                            sheet_calldata := None |} ];
     location := "/0x1" |}.

(** The state once the load of ["0x1"] has settled. *)
Definition loaded_state : State :=
  run_events empty_state
    (sync (load good_world empty_state "0x1")
     ++ chain (load good_world empty_state "0x1")
     ++ metadata (load good_world empty_state "0x1")).

(** The sheet ["0x1"] is known and not deployed yet. *)
Definition calldata_state : State :=
  {| appStatus_sheets := ∅; values := ∅;
     onsheet_sheets := [ {| name := "Sheet"; symbol := "SHT";
                            sheet_address := "0x1";
                            sheet_calldata := Some tt |} ];
     location := "/0x1" |}.

(** Two rendered cells have the id 2. *)
Definition twice_contract : SheetContract :=
  {| renderCells := Fulfilled [rendered_cell 2 7; rendered_cell 2 8];
     getCell := fun _ => Fulfilled (cell_data (2 ^ 129)) |}.

Definition twice_world : World :=
  {| callContract := fun _ entrypoint => Fulfilled (metadata_answer entrypoint);
     contract := Some twice_contract;
     getAbiForContract := fun _ => Fulfilled {[ "0x7" := "transfer" ]} |}.

Definition twice_grid : list Cell :=
  [defaultCell 0; defaultCell 1; stored_cell 2 8 (2 ^ 129);
   defaultCell 3; defaultCell 4; defaultCell 5].

(** [getCell] fails for the cell 1. *)
Definition deaf_contract : SheetContract :=
  {| renderCells := Fulfilled [rendered_cell 0 1; rendered_cell 1 2;
                               rendered_cell 3 4];
     getCell := fun i =>
       if String.eqb i "1" then Rejected
       else Fulfilled (cell_data (2 ^ 129)) |}.

Definition deaf_world : World :=
  {| callContract := fun _ entrypoint => Fulfilled (metadata_answer entrypoint);
     contract := Some deaf_contract;
     getAbiForContract := fun _ => Fulfilled ∅ |}.

(** The rendered cell has the id [10^21], which prints as ["1e+21"]. *)
Definition huge_rendered_cell : CellRendered :=
  {| id := "1e+21"; owner := 1; value := 5; error := None |}.

Definition huge_contract : SheetContract :=
  {| renderCells := Fulfilled [huge_rendered_cell];
     getCell := fun _ => Fulfilled (cell_data (2 ^ 129)) |}.

Definition huge_world : World :=
  {| callContract := fun _ entrypoint => Fulfilled (metadata_answer entrypoint);
     contract := Some huge_contract;
     getAbiForContract := fun _ => Fulfilled {[ "0x7" := "transfer" ]} |}.

Definition huge_cell : Cell :=
  {| rendered := huge_rendered_cell; data := cell_data (2 ^ 129);
     abi := None |}.

Definition huge_grid : list Cell :=
  [defaultCell 0;
   {| rendered := huge_rendered_cell; data := cell_data (2 ^ 129);
      abi := Some "transfer" |};
   defaultCell 2; defaultCell 3; defaultCell 4; defaultCell 5].

(** The render that made the callback before any load. *)
Definition first_render : Render :=
  {| shared := empty_state; captured := empty_state |}.

(** No ABI can be fetched. *)
Definition mute_world : World :=
  {| callContract := fun _ entrypoint => Fulfilled (metadata_answer entrypoint);
     contract := Some blank_contract;
     getAbiForContract := fun _ => Rejected |}.

End SmallSheet.

(** * Properties *)

Section Properties.
Context `{Imports}.

(** ** Promises *)

Lemma and_then_fulfilled {A B} (f : A -> Promise B) (p : Promise A) a :
  p.2 = Fulfilled a -> p ≫= f = (p.1 ++ (f a).1, (f a).2).
Proof. intros Hp. unfold mbind, Promise_bind, and_then. by rewrite Hp. Qed.

Lemma and_then_rejected {A B} (f : A -> Promise B) (p : Promise A) :
  p.2 = Rejected -> p ≫= f = (p.1, Rejected).
Proof. intros Hp. unfold mbind, Promise_bind, and_then. by rewrite Hp. Qed.

Lemma all_settled_Forall2 {A B} (f : A -> settled B) (l : list A) (l' : list B) :
  all_settled (f <$> l) = Fulfilled l' ->
  Forall2 (fun a b => f a = Fulfilled b) l l'.
Proof.
  revert l'. induction l as [|a l IH]; intros l'; csimpl.
  - intros Heq. injection Heq as <-. constructor.
  - destruct (f a) as [b|] eqn:Hfa; [|discriminate].
    destruct (all_settled (f <$> l)) as [k|]; [|discriminate].
    intros Heq. injection Heq as <-. constructor; [done | by apply IH].
Qed.

Lemma all_settled_rejected {A B} (f : A -> settled B) (l : list A) :
  all_settled (f <$> l) = Rejected <-> exists a, a ∈ l /\ f a = Rejected.
Proof.
  induction l as [|a l IH]; csimpl.
  - split; [discriminate | intros (a & Ha & _); by apply elem_of_nil in Ha].
  - destruct (f a) as [b|] eqn:Hfa.
    + destruct (all_settled (f <$> l)) as [k|] eqn:Hk.
      * split; [discriminate|].
        intros (x & Hx & Hfx). apply elem_of_cons in Hx as [->|Hx].
        -- congruence.
        -- assert (@Fulfilled (list B) k = Rejected); [|discriminate].
           apply IH. eauto.
      * split; [|done]. intros _. destruct IH as [IH _].
        destruct (IH eq_refl) as (x & Hx & Hfx).
        exists x. split; [by apply elem_of_cons; right | done].
    + split; [|done]. intros _. exists a. split; [apply elem_of_cons; by left | done].
Qed.

Lemma Promise_all_events {A B} (f : A -> Promise B) (l : list A) (P : event -> Prop) :
  (forall a, a ∈ l -> Forall P (f a).1) -> Forall P (Promise_all (f <$> l)).1.
Proof.
  intros Hl. unfold Promise_all. simpl.
  induction l as [|a l IH]; csimpl; [constructor|].
  apply Forall_app. split.
  - apply Hl, elem_of_cons. by left.
  - apply IH. intros x Hx. apply Hl, elem_of_cons. by right.
Qed.

Lemma Promise_all_outcome {A B} (f : A -> Promise B) (l : list A) :
  (Promise_all (f <$> l)).2 = all_settled ((fun a => (f a).2) <$> l).
Proof. unfold Promise_all. simpl. by rewrite <- list_fmap_compose. Qed.

(** ** The grid *)

Lemma index_cells_foldl_None (cells : list Cell) (m : gmap (option Z) Cell)
    (k : option Z) :
  (forall c, c ∈ cells -> cell_key c <> k) ->
  foldl (fun prev cell => <[cell_key cell := cell]> prev) m cells !! k
  = m !! k.
Proof.
  revert m. induction cells as [|c cells IH]; intros m Hk; simpl; [done|].
  rewrite IH.
  - apply lookup_insert_ne, Hk, elem_of_cons. by left.
  - intros x Hx. apply Hk, elem_of_cons. by right.
Qed.

Lemma index_cells_foldl_Some (cells : list Cell) (m : gmap (option Z) Cell)
    (k : option Z) c :
  foldl (fun prev cell => <[cell_key cell := cell]> prev) m cells !! k
  = Some c ->
  (c ∈ cells /\ cell_key c = k) \/ m !! k = Some c.
Proof.
  revert m. induction cells as [|x cells IH]; intros m; simpl; [by right|].
  intros Hc. apply IH in Hc as [[Hin Hid]|Hc].
  - left. split; [apply elem_of_cons; by right | done].
  - destruct (decide (cell_key x = k)) as [Heq|Hne].
    + rewrite Heq, lookup_insert_eq in Hc. injection Hc as <-.
      left. split; [apply elem_of_cons; by left | done].
    + rewrite lookup_insert_ne in Hc by done. by right.
Qed.

Lemma index_cells_None (cells : list Cell) (k : option Z) :
  (forall c, c ∈ cells -> cell_key c <> k) -> index_cells cells !! k = None.
Proof.
  intros Hk. unfold index_cells. rewrite index_cells_foldl_None by done.
  apply lookup_empty.
Qed.

Lemma index_cells_Some (cells : list Cell) (k : option Z) c :
  index_cells cells !! k = Some c -> c ∈ cells /\ cell_key c = k.
Proof.
  unfold index_cells. intros Hc.
  apply index_cells_foldl_Some in Hc as [Hc|Hc]; [done|].
  by rewrite lookup_empty in Hc.
Qed.

Lemma length_grid_of (cells : list Cell) : length (grid_of cells) = GRID_SIZE.
Proof. unfold grid_of. by rewrite length_fmap, length_seq. Qed.

Lemma grid_of_lookup (cells : list Cell) (i : nat) :
  (i < GRID_SIZE)%nat ->
  grid_of cells !! i
  = Some (default (defaultCell (Z.of_nat i))
                  (index_cells cells !! Some (Z.of_nat i))).
Proof.
  intros Hi. unfold grid_of. rewrite list_lookup_fmap.
  by rewrite lookup_seq_lt.
Qed.

Lemma grid_of_lookup_lt (cells : list Cell) (i : nat) c :
  grid_of cells !! i = Some c -> (i < GRID_SIZE)%nat.
Proof.
  intros Hc. apply lookup_lt_Some in Hc. by rewrite length_grid_of in Hc.
Qed.

(** An entry of the grid is the placeholder of its index, or a fetched cell
    whose key is the index. *)
Lemma grid_of_entry (cells : list Cell) (i : nat) c :
  grid_of cells !! i = Some c ->
  c = defaultCell (Z.of_nat i)
  \/ (c ∈ cells /\ cell_key c = Some (Z.of_nat i)).
Proof.
  intros Hc. pose proof (grid_of_lookup_lt _ _ _ Hc) as Hi.
  rewrite grid_of_lookup in Hc by done. injection Hc as <-.
  destruct (index_cells cells !! Some (Z.of_nat i)) as [x|] eqn:Hx; simpl;
    [|by left].
  right. by apply index_cells_Some in Hx.
Qed.

Lemma grid_of_default (cells : list Cell) (i : nat) :
  (i < GRID_SIZE)%nat ->
  (forall c, c ∈ cells -> cell_key c <> Some (Z.of_nat i)) ->
  grid_of cells !! i = Some (defaultCell (Z.of_nat i)).
Proof.
  intros Hi Hno. rewrite grid_of_lookup by done.
  by rewrite index_cells_None.
Qed.

(** ** The main chain *)

Lemma fetch_cell_events (c : SheetContract) (cell : CellRendered) :
  Forall (fun e => is_progress e = true) (fetch_cell c cell).1.
Proof.
  unfold fetch_cell, mbind, Promise_bind, and_then, await. simpl.
  destruct (getCell c (id cell)); simpl; repeat constructor.
Qed.

Lemma with_abi_events (w : World) (array : list Cell) (cell : Cell) :
  Forall (fun e => is_progress e = true) (with_abi w array cell).1.
Proof.
  unfold with_abi, mbind, Promise_bind, and_then, await. simpl.
  destruct (resolvedContractAddress array cell) as [r|]; simpl; [|constructor].
  destruct (getAbiForContract w (bn2hex r)); simpl; repeat constructor.
Qed.

Lemma cells_promise_events (c : SheetContract) (sheet : option Sheet) a :
  Forall (fun e => is_progress e = true) (cells_promise c sheet a).1.
Proof.
  unfold cells_promise. destruct (has_calldata sheet); [constructor|].
  unfold fetch_cells, mbind, Promise_bind, and_then. simpl.
  destruct (renderCells c) as [rcs|]; simpl; [|constructor].
  constructor; [done|].
  apply Promise_all_events. intros. apply fetch_cell_events.
Qed.

Lemma finalize_events (w : World) a (cells : list Cell) :
  Forall (fun e => is_progress e = true) (finalize w a cells).1.
Proof.
  unfold finalize, mbind, Promise_bind, and_then. simpl.
  constructor; [done|].
  apply Promise_all_events. intros. apply with_abi_events.
Qed.

Lemma finalize_outcome (w : World) a (cells : list Cell) :
  (finalize w a cells).2
  = all_settled ((fun cell => (with_abi w (grid_of cells) cell).2)
                   <$> grid_of cells).
Proof.
  unfold finalize, mbind, Promise_bind, and_then. simpl.
  apply Promise_all_outcome.
Qed.

Lemma main_chain_stored (w : World) c sheet a cells out :
  (cells_promise c sheet a).2 = Fulfilled cells ->
  (finalize w a cells).2 = Fulfilled out ->
  main_chain w c sheet a
  = (((cells_promise c sheet a).1 ++ (finalize w a cells).1)
       ++ [SetValues a out], Fulfilled tt).
Proof.
  intros Hc Hf. unfold main_chain.
  rewrite (and_then_fulfilled _ _ _ Hc).
  by rewrite (and_then_fulfilled _ _ out).
Qed.

Lemma main_chain_not_finalized (w : World) c sheet a cells :
  (cells_promise c sheet a).2 = Fulfilled cells ->
  (finalize w a cells).2 = Rejected ->
  main_chain w c sheet a
  = ((cells_promise c sheet a).1 ++ (finalize w a cells).1, Rejected).
Proof.
  intros Hc Hf. unfold main_chain.
  rewrite (and_then_fulfilled _ _ _ Hc).
  by rewrite and_then_rejected.
Qed.

Lemma main_chain_not_fetched (w : World) c sheet a :
  (cells_promise c sheet a).2 = Rejected ->
  main_chain w c sheet a = ((cells_promise c sheet a).1, Rejected).
Proof.
  intros Hc. unfold main_chain.
  rewrite (and_then_rejected _ _ Hc).
  by rewrite and_then_rejected.
Qed.

Lemma main_chain_outcome (w : World) c sheet a : chain_outcome w c sheet a.
Proof.
  destruct ((cells_promise c sheet a).2) as [cells|] eqn:Hc.
  - destruct ((finalize w a cells).2) as [out|] eqn:Hf.
    + eapply outcome_stored; eauto using main_chain_stored.
    + eapply outcome_not_finalized; eauto using main_chain_not_finalized.
  - apply outcome_not_fetched; auto using main_chain_not_fetched.
Qed.

Lemma main_chain_rejected_events (w : World) c sheet a :
  (main_chain w c sheet a).2 = Rejected ->
  Forall (fun e => is_progress e = true) (main_chain w c sheet a).1.
Proof.
  destruct (main_chain_outcome w c sheet a) as [cells out _ _ ->|cells _ _ ->|_ ->];
    simpl; [discriminate| |]; intros _.
  - apply Forall_app. split; [apply cells_promise_events | apply finalize_events].
  - apply cells_promise_events.
Qed.

Lemma main_chain_fulfilled_events (w : World) c sheet a u :
  (main_chain w c sheet a).2 = Fulfilled u ->
  exists cells out,
    (cells_promise c sheet a).2 = Fulfilled cells /\
    (finalize w a cells).2 = Fulfilled out /\
    (main_chain w c sheet a).1
    = ((cells_promise c sheet a).1 ++ (finalize w a cells).1)
        ++ [SetValues a out].
Proof.
  destruct (main_chain_outcome w c sheet a) as [cells out Hc Hf ->|cells _ _ ->|_ ->];
    simpl; [|discriminate..]; intros _.
  by exists cells, out.
Qed.

(** ** The shape of a run *)

Lemma load_starts (w : World) s a c :
  starts_chain w s a c ->
  load w s a
  = {| sync :=
         [UpdateSheetStatus a first_update;
          UpdateSheetStatus a (status_message "Rendering grid values")]
         ++ match find_sheet s a with
            | Some _ => []
            | None => [CallContract a "name"; CallContract a "symbol"]
            end
         ++ (if has_calldata (find_sheet s a) then [] else [RenderCells]);
       metadata :=
         match find_sheet s a with
         | Some _ => []
         | None => (register_sheet w a).1
         end;
       chain :=
         catch_finally a {| local_error := false; finalMessage := "" |}
           (main_chain w c (find_sheet s a) a) |}.
Proof.
  intros (Ha & Hc & Hl & Hv). unfold load.
  destruct (String.eqb_spec a ""); [done|].
  by rewrite Hc, Hl, Hv.
Qed.

Lemma chain_of_fulfilled (w : World) s a c u :
  starts_chain w s a c ->
  (main_chain w c (find_sheet s a) a).2 = Fulfilled u ->
  chain (load w s a)
  = (main_chain w c (find_sheet s a) a).1
      ++ [UpdateSheetStatus a (last_update false "")].
Proof.
  intros Hs Hm. rewrite (load_starts _ _ _ _ Hs). simpl.
  unfold catch_finally. by rewrite Hm.
Qed.

Lemma chain_of_rejected (w : World) s a c :
  starts_chain w s a c ->
  (main_chain w c (find_sheet s a) a).2 = Rejected ->
  chain (load w s a)
  = (main_chain w c (find_sheet s a) a).1
      ++ [Navigate "/"; UpdateSheetStatus a (last_update false (error_message a))].
Proof.
  intros Hs Hm. rewrite (load_starts _ _ _ _ Hs). simpl.
  unfold catch_finally. by rewrite Hm.
Qed.

(** A call either does nothing, or answers from the stored cells, or starts
    the chain. *)
Lemma load_cases (w : World) s a :
  load w s a = no_run
  \/ (has_values s a = true /\ chain (load w s a) = [] /\
      metadata (load w s a) = [])
  \/ exists c, starts_chain w s a c.
Proof.
  unfold load. destruct (String.eqb_spec a ""); [by left|].
  destruct (contract w) as [c|] eqn:Hc; [|by left].
  destruct (is_loading s a) eqn:Hl; [by left|].
  destruct (has_values s a) eqn:Hv.
  - right. left. done.
  - right. right. exists c. done.
Qed.

(** ** Events and the shared state *)

Lemma run_events_app (s : State) (l k : list event) :
  run_events s (l ++ k) = run_events (run_events s l) k.
Proof. apply foldl_app. Qed.

Lemma interleave_Forall {A} (P : A -> Prop) (l1 l2 m : list A) :
  interleave l1 l2 m -> Forall P l1 -> Forall P l2 -> Forall P m.
Proof.
  induction 1 as [|x l1 l2 m _ IH|x l1 l2 m _ IH]; intros H1 H2.
  - constructor.
  - inversion H1; subst. constructor; auto.
  - inversion H2; subst. constructor; auto.
Qed.

Lemma interleave_elem_of {A} (l1 l2 m : list A) (x : A) :
  interleave l1 l2 m -> x ∈ m <-> x ∈ l1 \/ x ∈ l2.
Proof.
  induction 1 as [|y l1 l2 m _ IH|y l1 l2 m _ IH].
  - split; [intros Hx | intros [Hx|Hx]]; by apply elem_of_nil in Hx.
  - rewrite !elem_of_cons, IH. tauto.
  - rewrite !elem_of_cons, IH. tauto.
Qed.

Lemma interleave_nil_l {A} (l m : list A) : interleave [] l m -> m = l.
Proof.
  remember [] as l1 eqn:Hl1. induction 1; [done|discriminate|].
  f_equal. auto.
Qed.

(** One component of the state at a time: [view] is one of the fields, and
    an event acts on it in the same way whatever the other fields are. *)
Section Frames.
Context {X : Type} (view : State -> X).
Hypothesis view_step : forall s1 s2 e,
  view s1 = view s2 -> view (apply_event s1 e) = view (apply_event s2 e).

Lemma run_events_view (s1 s2 : State) (l : list event) :
  view s1 = view s2 -> view (run_events s1 l) = view (run_events s2 l).
Proof.
  revert s1 s2. induction l as [|e l IH]; intros s1 s2 Hs; simpl; [done|].
  apply IH, view_step, Hs.
Qed.

Lemma run_events_unseen (s : State) (l : list event) :
  Forall (fun e => forall s', view (apply_event s' e) = view s') l ->
  view (run_events s l) = view s.
Proof.
  revert s. induction l as [|e l IH]; intros s Hl; simpl; [done|].
  inversion Hl as [|? ? He Hl']; subst.
  rewrite IH by done. apply He.
Qed.

Lemma run_events_interleave_l (s : State) (l1 l2 m : list event) :
  interleave l1 l2 m ->
  Forall (fun e => forall s', view (apply_event s' e) = view s') l1 ->
  view (run_events s m) = view (run_events s l2).
Proof.
  intros Hm. revert s.
  induction Hm as [|x l1 l2 m _ IH|x l1 l2 m _ IH]; intros s H1; simpl.
  - done.
  - inversion H1 as [|? ? Hx H1']; subst.
    rewrite IH by done. apply run_events_view, Hx.
  - by apply IH.
Qed.

Lemma run_events_interleave_r (s : State) (l1 l2 m : list event) :
  interleave l1 l2 m ->
  Forall (fun e => forall s', view (apply_event s' e) = view s') l2 ->
  view (run_events s m) = view (run_events s l1).
Proof.
  intros Hm. revert s.
  induction Hm as [|x l1 l2 m _ IH|x l1 l2 m _ IH]; intros s H2; simpl.
  - done.
  - by apply IH.
  - inversion H2 as [|? ? Hx H2']; subst.
    rewrite IH by done. apply run_events_view, Hx.
Qed.
End Frames.

Lemma status_step (s1 s2 : State) e :
  appStatus_sheets s1 = appStatus_sheets s2 ->
  appStatus_sheets (apply_event s1 e) = appStatus_sheets (apply_event s2 e).
Proof. intros Hs. destruct e; simpl; congruence. Qed.

Lemma sheets_step (s1 s2 : State) e :
  onsheet_sheets s1 = onsheet_sheets s2 ->
  onsheet_sheets (apply_event s1 e) = onsheet_sheets (apply_event s2 e).
Proof. intros Hs. destruct e; simpl; congruence. Qed.

Lemma location_step (s1 s2 : State) e :
  location s1 = location s2 ->
  location (apply_event s1 e) = location (apply_event s2 e).
Proof. intros Hs. destruct e; simpl; congruence. Qed.

Lemma status_unseen e :
  is_status_update e = false ->
  forall s, appStatus_sheets (apply_event s e) = appStatus_sheets s.
Proof. by destruct e. Qed.

Lemma values_unseen e :
  is_set_values e = false -> forall s, values (apply_event s e) = values s.
Proof. by destruct e. Qed.

Lemma sheets_unseen e :
  is_append_sheet e = false ->
  forall s, onsheet_sheets (apply_event s e) = onsheet_sheets s.
Proof. by destruct e. Qed.

Lemma location_unseen e :
  is_navigate e = false -> forall s, location (apply_event s e) = location s.
Proof. by destruct e. Qed.

Lemma progress_keeps_loading a e :
  is_progress e = true -> keeps_loading a e = true.
Proof.
  destruct e as [a' u| | | | | | |]; simpl; try done.
  destruct (set_loading u); [discriminate|]. intros _. apply orb_true_r.
Qed.

(** ** The loading flag *)

Lemma is_loading_apply (s : State) a e :
  keeps_loading a e = true -> is_loading (apply_event s e) a = is_loading s a.
Proof.
  destruct e as [a' u| | | | | | |]; simpl; try done.
  intros Hk. unfold is_loading, update_status. simpl.
  destruct (String.eqb_spec a' a) as [->|Hne].
  - simpl in Hk. destruct (set_loading u) eqn:Hu; [discriminate|].
    rewrite lookup_insert_eq. unfold merge_status. simpl. rewrite Hu. simpl.
    by destruct (appStatus_sheets s !! a).
  - by rewrite lookup_insert_ne.
Qed.

Lemma is_loading_run (s : State) a (l : list event) :
  Forall (fun e => keeps_loading a e = true) l ->
  is_loading (run_events s l) a = is_loading s a.
Proof.
  revert s. induction l as [|e l IH]; intros s Hl; simpl; [done|].
  inversion Hl; subst. rewrite IH by done. by apply is_loading_apply.
Qed.

Lemma is_loading_first_update (s : State) a :
  is_loading (apply_event s (UpdateSheetStatus a first_update)) a = true.
Proof.
  unfold is_loading. simpl. unfold update_status. by rewrite lookup_insert_eq.
Qed.

(** The status of [a] after a trace that ends with an update of it. *)
Lemma status_after_update (s : State) a (l : list event) u :
  appStatus_sheets (run_events s (l ++ [UpdateSheetStatus a u])) !! a
  = Some (merge_status
            (default defaultSheetStatus
                     (appStatus_sheets (run_events s l) !! a)) u).
Proof.
  rewrite run_events_app. simpl. unfold update_status.
  apply lookup_insert_eq.
Qed.

(** ** What a stored array is *)

Lemma with_abi_fulfilled (w : World) (array : list Cell) (cell out : Cell) :
  (with_abi w array cell).2 = Fulfilled out ->
  rendered out = rendered cell /\ data out = data cell /\
  is_fulfilled (resolvedContractAddress array cell) = true.
Proof.
  unfold with_abi, mbind, Promise_bind, and_then, await. simpl.
  destruct (resolvedContractAddress array cell) as [r|]; simpl; [|discriminate].
  destruct (getAbiForContract w (bn2hex r)); simpl; [|discriminate].
  intros Heq. injection Heq as <-. done.
Qed.

Lemma finalize_fulfilled (w : World) a (cells out : list Cell) :
  (finalize w a cells).2 = Fulfilled out ->
  Forall2 (fun cell entry => rendered entry = rendered cell /\
                             data entry = data cell)
          (grid_of cells) out.
Proof.
  rewrite finalize_outcome. intros Hout.
  apply all_settled_Forall2 in Hout.
  eapply Forall2_impl; [exact Hout|].
  intros cell entry Hc. simpl in Hc.
  apply with_abi_fulfilled in Hc. tauto.
Qed.

Lemma progress_not_set_values (l : list event) a out :
  Forall (fun e => is_progress e = true) l -> SetValues a out ∉ l.
Proof.
  intros Hl Hin. rewrite Forall_forall in Hl. by apply Hl in Hin.
Qed.

Lemma register_sheet_events (w : World) a :
  Forall (fun e => is_append_sheet e = true) (register_sheet w a).1.
Proof.
  unfold register_sheet, mbind, Promise_bind, and_then, Promise_all. simpl.
  destruct (callContract w a "name") as [r1|]; simpl; [|constructor].
  destruct (callContract w a "symbol") as [r2|]; simpl; [|constructor].
  destruct (decode_result r1), (decode_result r2); simpl; repeat constructor.
Qed.

Lemma metadata_events (w : World) s a :
  Forall (fun e => is_append_sheet e = true) (metadata (load w s a)).
Proof.
  destruct (load_cases w s a) as [->|[(_ & _ & ->)|[c Hs]]]; [constructor..|].
  rewrite (load_starts _ _ _ _ Hs). simpl.
  destruct (find_sheet s a); [constructor|]. apply register_sheet_events.
Qed.

Lemma sync_not_set_values (w : World) s a a' out :
  SetValues a' out ∉ sync (load w s a).
Proof.
  unfold load. destruct (String.eqb a ""); [apply not_elem_of_nil|].
  destruct (contract w); [|apply not_elem_of_nil].
  destruct (is_loading s a); [apply not_elem_of_nil|].
  destruct (has_values s a); simpl.
  - rewrite !elem_of_cons. intros [?|[?|Hin]]; try discriminate.
    by apply elem_of_nil in Hin.
  - destruct (find_sheet s a), (has_calldata _); simpl;
      rewrite !elem_of_cons; intuition (try discriminate);
      by match goal with Hin : _ ∈ [] |- _ => apply elem_of_nil in Hin end.
Qed.

(** A [SetValues] of a run is the one of a chain that went through. *)
Lemma set_values_in_run (w : World) s a a' out :
  SetValues a' out ∈ all_events (load w s a) ->
  exists c cells,
    starts_chain w s a c /\
    (cells_promise c (find_sheet s a) a).2 = Fulfilled cells /\
    (finalize w a cells).2 = Fulfilled out /\
    a' = a.
Proof.
  unfold all_events. rewrite !elem_of_app. intros [Hin|[Hin|Hin]].
  - by apply sync_not_set_values in Hin.
  - pose proof (metadata_events w s a) as Hm. rewrite Forall_forall in Hm.
    by apply Hm in Hin.
  - destruct (load_cases w s a) as [Hl|[(_ & Hl & _)|[c Hs]]].
    + rewrite Hl in Hin. by apply elem_of_nil in Hin.
    + rewrite Hl in Hin. by apply elem_of_nil in Hin.
    + exists c.
      destruct ((main_chain w c (find_sheet s a) a).2) as [u|] eqn:Hm.
      * rewrite (chain_of_fulfilled _ _ _ _ _ Hs Hm) in Hin.
        destruct (main_chain_fulfilled_events _ _ _ _ _ Hm)
          as (cells & out' & Hc & Hf & Hev).
        rewrite Hev in Hin. rewrite !elem_of_app in Hin.
        destruct Hin as [[[Hin|Hin]|Hin]|Hin].
        -- by apply progress_not_set_values in Hin;
             [|apply cells_promise_events].
        -- by apply progress_not_set_values in Hin; [|apply finalize_events].
        -- apply list_elem_of_singleton in Hin. injection Hin as -> ->.
           by exists cells.
        -- apply list_elem_of_singleton in Hin. discriminate.
      * rewrite (chain_of_rejected _ _ _ _ Hs Hm) in Hin.
        rewrite elem_of_app, !elem_of_cons in Hin.
        destruct Hin as [Hin|[Hin|[Hin|Hin]]]; try discriminate.
        -- by apply progress_not_set_values in Hin;
             [|apply main_chain_rejected_events].
        -- by apply elem_of_nil in Hin.
Qed.

Lemma length_colNames : length colNames = N_COL.
Proof.
  unfold colNames. rewrite length_drop, length_fmap, length_seq. lia.
Qed.

Lemma cell_at_rows (s : State) a (cells : list Cell) (r col : nat) :
  shows_grid s a = true ->
  cells_of s a = Some cells ->
  (r < N_ROW)%nat -> (col < N_COL)%nat ->
  cell_at (SheetTable_rows s a) r col = Some (cells !! (col + N_COL * r)%nat).
Proof.
  intros Hshow Hcells Hr Hcol. unfold SheetTable_rows, cell_at.
  rewrite Hshow, Hcells. simpl.
  rewrite list_lookup_fmap, lookup_seq_lt by done. simpl.
  rewrite list_lookup_imap.
  destruct (colNames !! col) as [name|] eqn:Hname; [done|].
  apply lookup_ge_None in Hname. rewrite length_colNames in Hname. lia.
Qed.

(** C2. Whenever [load] stores a cell array for a sheet, the array is
    stored under the address [load] was called with, it has exactly
    [GRID_SIZE] entries, the entry at index [i] is the placeholder of index
    [i] or a fetched cell whose id reads as [i]
    ([parseInt(cell.id.toString())]), and the component renders at row [r]
    and column [col] the entry at index [col + N_COL * r]. The fetched
    cells are arbitrary: the list may be empty or sparse. *)
Theorem stored_cells_are_the_grid (w : World) (s : State) (a a' : string)
    (out : list Cell) :
  SetValues a' out ∈ all_events (load w s a) ->
  a' = a /\
  length out = GRID_SIZE /\
  (forall i : nat, (i < GRID_SIZE)%nat ->
     exists entry,
       out !! i = Some entry /\
       ((rendered entry = defaultRenderedCell (Z.of_nat i) /\
         data entry = defaultCellData (Z.of_nat i))
        \/ parseInt (toString (id (rendered entry))) = Some (Z.of_nat i))) /\
  (forall (s' : State) (status : SheetStatus) (r col : nat),
     values s' !! a = Some out ->
     appStatus_sheets s' !! a = Some status ->
     loading status = false ->
     (r < N_ROW)%nat -> (col < N_COL)%nat ->
     cell_at (SheetTable_rows s' a) r col
     = Some (out !! (col + N_COL * r)%nat)).
Proof.
  intros Hin.
  destruct (set_values_in_run _ _ _ _ _ Hin) as (c & cells & Hs & Hc & Hf & ->).
  apply finalize_fulfilled in Hf.
  assert (Hlen : length out = GRID_SIZE).
  { rewrite <- (Forall2_length _ _ _ Hf). apply length_grid_of. }
  split; [done|]. split; [done|]. split.
  - intros i Hi.
    destruct (Forall2_lookup_l _ _ _ i _ Hf (grid_of_lookup cells i Hi))
      as (entry & Hentry & Hr & Hd).
    exists entry. split; [done|]. rewrite Hr, Hd.
    destruct (grid_of_entry cells i _ (grid_of_lookup cells i Hi))
      as [->|[_ Hkey]]; [by left | by right].
  - intros s' status r col Hv Hst Hload Hr Hcol.
    destruct Hs as (Ha & _).
    assert (Hcells : cells_of s' a = Some out).
    { unfold cells_of. by destruct (String.eqb_spec a ""). }
    apply cell_at_rows; try done.
    unfold shows_grid. rewrite Hcells, Hst, Hload, Hlen.
    destruct (String.eqb_spec a ""); [done|]. simpl.
    by rewrite Nat.eqb_refl.
Qed.

Lemma stored_by_chain (w : World) s a c cells out :
  starts_chain w s a c ->
  (cells_promise c (find_sheet s a) a).2 = Fulfilled cells ->
  SetValues a out ∈ chain (load w s a) ->
  (finalize w a cells).2 = Fulfilled out.
Proof.
  intros Hs Hc Hin.
  assert (Hall : SetValues a out ∈ all_events (load w s a)).
  { unfold all_events. rewrite !elem_of_app. auto. }
  destruct (set_values_in_run _ _ _ _ _ Hall) as (c' & cells' & Hs' & Hc' & Hf & _).
  destruct Hs as (_ & Hw & _), Hs' as (_ & Hw' & _).
  assert (c' = c) as -> by congruence.
  congruence.
Qed.

(** C8, as amended. For every grid index [i] that is the key of no fetched
    cell (no fetched cell has an id that reads as [i] through
    [parseInt(cell.id.toString())]), the entry stored at index [i] is the
    placeholder: id [i], owner 0, value 0, contract address [RC_BOUND],
    selector 0 and no calldata; its contract address is looked up as it is,
    not as a reference. *)
Theorem missing_cell_is_default (w : World) (s : State) (a : string)
    (c : SheetContract) (cells out : list Cell) (i : nat) :
  starts_chain w s a c ->
  (cells_promise c (find_sheet s a) a).2 = Fulfilled cells ->
  SetValues a out ∈ chain (load w s a) ->
  (i < GRID_SIZE)%nat ->
  (forall cell, cell ∈ cells ->
     parseInt (toString (id (rendered cell))) <> Some (Z.of_nat i)) ->
  exists entry,
    out !! i = Some entry /\
    rendered entry
    = {| id := number_id (Z.of_nat i); owner := 0; value := 0;
         error := None |} /\
    data entry
    = {| contractAddress := RC_BOUND; selector := 0; calldata := [] |} /\
    resolvedContractAddress (grid_of cells) entry = Fulfilled RC_BOUND.
Proof.
  intros Hs Hc Hin Hi Hno.
  pose proof (stored_by_chain _ _ _ _ _ _ Hs Hc Hin) as Hf.
  apply finalize_fulfilled in Hf.
  destruct (Forall2_lookup_l _ _ _ i _ Hf (grid_of_default cells i Hi Hno))
    as (entry & Hentry & Hr & Hd).
  exists entry. repeat split; try done.
  unfold resolvedContractAddress. rewrite Hd. simpl.
  by rewrite Z.ltb_irrefl.
Qed.

(** ** The address of the ABI lookup *)

Lemma resolved_is_abi_address (cells : list Cell) (cell : Cell) (addr : Z) :
  resolvedContractAddress (grid_of cells) cell = Fulfilled addr
  <-> abi_address (grid_of cells) cell addr.
Proof.
  unfold resolvedContractAddress, toNumber, js_index. split.
  - destruct (Z.ltb_spec (contractAddress (data cell)) RC_BOUND) as [Hlt|Hge].
    + destruct (Z.abs _ <? 2 ^ 53); [|discriminate].
      destruct (Z.leb_spec 0 (contractAddress (data cell))) as [Hpos|];
        [|discriminate].
      destruct (grid_of cells !! Z.to_nat _) as [target|] eqn:Ht; [|discriminate].
      intros Heq. injection Heq as <-.
      eapply abi_address_reference; [done| |exact Ht]. lia.
    + intros Heq. injection Heq as <-. by apply abi_address_literal.
  - pose proof GRID_SIZE_array_length as Hsize.
    intros [n target Hlt Hn Ht|Hge].
    + apply Z.ltb_lt in Hlt as ->.
      pose proof (grid_of_lookup_lt _ _ _ Ht) as Hin.
      destruct (Z.ltb_spec (Z.abs (contractAddress (data cell))) (2 ^ 53)); [|lia].
      destruct (Z.leb_spec 0 (contractAddress (data cell))); [|lia].
      by rewrite Hn, Nat2Z.id, Ht.
    + by apply Z.ltb_ge in Hge as ->.
Qed.

Lemma abi_requests_app (l k : list event) :
  abi_requests (l ++ k) = abi_requests l ++ abi_requests k.
Proof. apply omap_app. Qed.

Lemma abi_requests_none (l : list event) :
  Forall (fun e => abi_request e = None) l -> abi_requests l = [].
Proof.
  induction 1 as [|e l He _ IH]; [done|].
  unfold abi_requests in *. simpl. by rewrite He.
Qed.

Lemma abi_requests_cells_promise (c : SheetContract) sheet a :
  abi_requests (cells_promise c sheet a).1 = [].
Proof.
  apply abi_requests_none. unfold cells_promise.
  destruct (has_calldata sheet); [constructor|].
  unfold fetch_cells, mbind, Promise_bind, and_then. simpl.
  destruct (renderCells c) as [rcs|]; simpl; [|constructor].
  constructor; [done|].
  apply Promise_all_events. intros rc _.
  unfold fetch_cell, mbind, Promise_bind, and_then, await. simpl.
  destruct (getCell c (id rc)); simpl; repeat constructor.
Qed.

Lemma abi_requests_with_abi (w : World) (array l : list Cell) :
  abi_requests (concat (fst <$> (with_abi w array <$> l)))
  = omap (fun cell =>
            bn2hex <$> fulfilled_value (resolvedContractAddress array cell)) l.
Proof.
  induction l as [|cell l IH]; csimpl; [done|].
  rewrite abi_requests_app, IH. f_equal.
  unfold with_abi, mbind, Promise_bind, and_then, await. simpl.
  destruct (resolvedContractAddress array cell) as [r|]; simpl; [|done].
  by destruct (getAbiForContract w (bn2hex r)).
Qed.

Lemma abi_requests_finalize (w : World) a (cells : list Cell) :
  abi_requests (finalize w a cells).1
  = omap (fun cell =>
            bn2hex <$> fulfilled_value
                         (resolvedContractAddress (grid_of cells) cell))
         (grid_of cells).
Proof.
  unfold finalize, mbind, Promise_bind, and_then. simpl.
  apply abi_requests_with_abi.
Qed.

Lemma abi_requests_chain (w : World) s a c cells :
  starts_chain w s a c ->
  (cells_promise c (find_sheet s a) a).2 = Fulfilled cells ->
  abi_requests (chain (load w s a)) = abi_requests (finalize w a cells).1.
Proof.
  intros Hs Hc.
  destruct (main_chain_outcome w c (find_sheet s a) a)
    as [cells' out Hc' Hf Hm|cells' Hc' Hf Hm|Hc' _]; [| |congruence].
  - assert (cells' = cells) as -> by congruence.
    rewrite (chain_of_fulfilled _ _ _ _ tt Hs) by by rewrite Hm.
    rewrite Hm. simpl.
    rewrite !abi_requests_app, abi_requests_cells_promise. simpl.
    by rewrite !app_nil_r.
  - assert (cells' = cells) as -> by congruence.
    rewrite (chain_of_rejected _ _ _ _ Hs) by by rewrite Hm.
    rewrite Hm. simpl.
    rewrite !abi_requests_app, abi_requests_cells_promise. simpl.
    by rewrite !app_nil_r.
Qed.

(** C1. For every cell of the populated grid array, the address the ABI is
    looked up at is the one the specification gives: when the contract
    address of the cell is below [RC_BOUND], the computed value of the cell
    whose grid index is that contract address (one level: the contract
    address of that cell plays no part), and the contract address itself
    otherwise. The ABI requests of the chain are, in grid order, the
    requests at these addresses. *)
Theorem abi_lookup_address (w : World) (s : State) (a : string)
    (c : SheetContract) (cells : list Cell) :
  starts_chain w s a c ->
  (cells_promise c (find_sheet s a) a).2 = Fulfilled cells ->
  (forall (i : nat) (cell : Cell) (addr : Z),
     grid_of cells !! i = Some cell ->
     (resolvedContractAddress (grid_of cells) cell = Fulfilled addr
      <-> abi_address (grid_of cells) cell addr) /\
     (abi_address (grid_of cells) cell addr ->
      GetAbiForContract (bn2hex addr) ∈ chain (load w s a))) /\
  abi_requests (chain (load w s a))
  = omap (fun cell =>
            bn2hex <$> fulfilled_value
                         (resolvedContractAddress (grid_of cells) cell))
         (grid_of cells).
Proof.
  intros Hs Hc.
  assert (Hreq : abi_requests (chain (load w s a))
                 = omap (fun cell =>
                           bn2hex <$> fulfilled_value
                             (resolvedContractAddress (grid_of cells) cell))
                        (grid_of cells)).
  { rewrite (abi_requests_chain _ _ _ _ _ Hs Hc). apply abi_requests_finalize. }
  split; [|done].
  intros i cell addr Hcell. split; [apply resolved_is_abi_address|].
  intros Haddr. apply resolved_is_abi_address in Haddr.
  assert (Hin : bn2hex addr ∈ abi_requests (chain (load w s a))).
  { rewrite Hreq. apply list_elem_of_omap. exists cell.
    split; [by eapply list_elem_of_lookup_2|]. by rewrite Haddr. }
  unfold abi_requests in Hin. apply list_elem_of_omap in Hin as (e & He & Hreqe).
  destruct e; try discriminate. injection Hreqe as ->. done.
Qed.

(** ** References out of the grid *)

Lemma schedule_elem_of (r : Run) (tr : list event) (e : event) :
  schedule r tr -> e ∈ tr <-> e ∈ all_events r.
Proof.
  intros (m & Hm & ->). unfold all_events.
  rewrite !elem_of_app, (interleave_elem_of _ _ _ _ Hm). tauto.
Qed.

Lemma schedule_exists (r : Run) : schedule r (sync r ++ chain r ++ metadata r).
Proof.
  exists (chain r ++ metadata r). split; [|done].
  induction (chain r) as [|e l IH]; simpl.
  - induction (metadata r); constructor; auto.
  - by constructor.
Qed.

Lemma no_set_values_keeps_values (w : World) s a (tr : list event) :
  (forall a' out, SetValues a' out ∉ all_events (load w s a)) ->
  schedule (load w s a) tr ->
  values (run_events s tr) = values s.
Proof.
  intros Hno Htr. apply run_events_unseen.
  apply Forall_forall. intros e He. apply values_unseen.
  destruct e as [| | | | | |a' out|]; try done.
  apply (schedule_elem_of _ _ _ Htr) in He. by apply Hno in He.
Qed.

Lemma resolved_out_of_grid (cells : list Cell) (cell : Cell) :
  contractAddress (data cell) < RC_BOUND ->
  ~ (0 <= contractAddress (data cell) < Z.of_nat GRID_SIZE) ->
  js_index (grid_of cells) (contractAddress (data cell)) = None /\
  resolvedContractAddress (grid_of cells) cell = Rejected.
Proof.
  intros Hlt Hout.
  assert (Hidx : js_index (grid_of cells) (contractAddress (data cell)) = None).
  { unfold js_index.
    destruct (Z.leb_spec 0 (contractAddress (data cell))); [|done].
    apply lookup_ge_None. rewrite length_grid_of. lia. }
  split; [done|]. unfold resolvedContractAddress, toNumber.
  apply Z.ltb_lt in Hlt as ->.
  destruct (Z.abs _ <? 2 ^ 53); [|done]. by rewrite Hidx.
Qed.

Lemma resolved_in_grid (cells : list Cell) (cell : Cell) :
  contractAddress (data cell) < RC_BOUND ->
  0 <= contractAddress (data cell) < Z.of_nat GRID_SIZE ->
  exists target,
    grid_of cells !! Z.to_nat (contractAddress (data cell)) = Some target /\
    resolvedContractAddress (grid_of cells) cell
    = Fulfilled (value (rendered target)).
Proof.
  intros Hlt Hin. pose proof GRID_SIZE_array_length as Hsize.
  assert (Hn : (Z.to_nat (contractAddress (data cell)) < GRID_SIZE)%nat) by lia.
  eexists. split; [by apply grid_of_lookup|].
  unfold resolvedContractAddress, toNumber, js_index.
  apply Z.ltb_lt in Hlt as ->.
  destruct (Z.ltb_spec (Z.abs (contractAddress (data cell))) (2 ^ 53)); [|lia].
  destruct (Z.leb_spec 0 (contractAddress (data cell))); [|lia].
  by rewrite grid_of_lookup.
Qed.

Lemma finalize_rejected_by (w : World) a (cells : list Cell) (i : nat) cell :
  grid_of cells !! i = Some cell ->
  resolvedContractAddress (grid_of cells) cell = Rejected ->
  (finalize w a cells).2 = Rejected.
Proof.
  intros Hcell Hr. rewrite finalize_outcome.
  apply all_settled_rejected. exists cell.
  split; [by eapply list_elem_of_lookup_2|].
  unfold with_abi, mbind, Promise_bind, and_then. simpl. by rewrite Hr.
Qed.

Lemma finalize_goes_through (w : World) a (cells : list Cell) :
  (forall cell, cell ∈ grid_of cells ->
     is_fulfilled (resolvedContractAddress (grid_of cells) cell) = true) ->
  (forall hex, is_fulfilled (getAbiForContract w hex) = true) ->
  exists out, (finalize w a cells).2 = Fulfilled out.
Proof.
  intros Hres Habi.
  destruct ((finalize w a cells).2) as [out|] eqn:Hf; [by exists out|].
  rewrite finalize_outcome in Hf.
  apply all_settled_rejected in Hf as (cell & Hcell & Hrej).
  apply Hres in Hcell.
  unfold with_abi, mbind, Promise_bind, and_then, await in Hrej. simpl in Hrej.
  destruct (resolvedContractAddress (grid_of cells) cell) as [r|];
    [|discriminate].
  simpl in Hrej. specialize (Habi (bn2hex r)).
  by destruct (getAbiForContract w (bn2hex r)).
Qed.

Lemma progress_not_navigate (l : list event) path :
  Forall (fun e => is_progress e = true) l -> Navigate path ∉ l.
Proof.
  intros Hl Hin. rewrite Forall_forall in Hl. by apply Hl in Hin.
Qed.

Lemma not_stored_if_not_finalized (w : World) s a c cells :
  starts_chain w s a c ->
  (cells_promise c (find_sheet s a) a).2 = Fulfilled cells ->
  (finalize w a cells).2 = Rejected ->
  forall a' out, SetValues a' out ∉ all_events (load w s a).
Proof.
  intros Hs Hc Hf a' out Hin.
  destruct (set_values_in_run _ _ _ _ _ Hin) as (c' & cells' & Hs' & Hc' & Hf' & _).
  destruct Hs as (_ & Hw & _), Hs' as (_ & Hw' & _).
  assert (c' = c) as -> by congruence.
  assert (cells' = cells) as -> by congruence.
  congruence.
Qed.

(** C10. A cell of the grid whose contract address is below [RC_BOUND] but
    is not a grid index (negative, or [GRID_SIZE] or more) refers to no
    entry of the array: the lookup is rejected, the chain takes its error
    branch and no cell array is stored. A contract address below
    [GRID_SIZE] always finds its cell; when every cell is of that kind or
    has a literal address, and the ABI lookups succeed, the array is stored
    and the error branch is not taken. *)
Theorem reference_out_of_grid (w : World) (s : State) (a : string)
    (c : SheetContract) (cells : list Cell) :
  starts_chain w s a c ->
  (cells_promise c (find_sheet s a) a).2 = Fulfilled cells ->
  (forall (i : nat) (cell : Cell),
     grid_of cells !! i = Some cell ->
     contractAddress (data cell) < RC_BOUND ->
     ~ (0 <= contractAddress (data cell) < Z.of_nat GRID_SIZE) ->
     js_index (grid_of cells) (contractAddress (data cell)) = None /\
     resolvedContractAddress (grid_of cells) cell = Rejected /\
     Navigate "/" ∈ chain (load w s a) /\
     (forall a' out, SetValues a' out ∉ all_events (load w s a)) /\
     (forall tr, schedule (load w s a) tr ->
                 values (run_events s tr) = values s)) /\
  (forall (i : nat) (cell : Cell),
     grid_of cells !! i = Some cell ->
     contractAddress (data cell) < RC_BOUND ->
     0 <= contractAddress (data cell) < Z.of_nat GRID_SIZE ->
     exists target,
       grid_of cells !! Z.to_nat (contractAddress (data cell)) = Some target /\
       resolvedContractAddress (grid_of cells) cell
       = Fulfilled (value (rendered target))) /\
  ((forall (i : nat) (cell : Cell),
      grid_of cells !! i = Some cell ->
      RC_BOUND <= contractAddress (data cell) \/
      0 <= contractAddress (data cell) < Z.of_nat GRID_SIZE) ->
   (forall hex, is_fulfilled (getAbiForContract w hex) = true) ->
   exists out,
     SetValues a out ∈ chain (load w s a) /\
     Navigate "/" ∉ chain (load w s a)).
Proof.
  intros Hs Hc. split; [|split].
  - intros i cell Hcell Hlt Hout.
    destruct (resolved_out_of_grid cells cell Hlt Hout) as [Hidx Hrej].
    pose proof (finalize_rejected_by w a _ _ _ Hcell Hrej) as Hf.
    pose proof (not_stored_if_not_finalized _ _ _ _ _ Hs Hc Hf) as Hno.
    repeat split; try done.
    + rewrite (chain_of_rejected _ _ _ _ Hs)
        by by rewrite (main_chain_not_finalized _ _ _ _ _ Hc Hf).
      rewrite elem_of_app, elem_of_cons. auto.
    + intros tr. by apply no_set_values_keeps_values.
  - intros i cell _. apply resolved_in_grid.
  - intros Hall Habi.
    destruct (finalize_goes_through w a cells) as [out Hf]; [|done|].
    { intros cell Hcell. apply list_elem_of_lookup_1 in Hcell as [i Hcell].
      destruct (Z.ltb_spec (contractAddress (data cell)) RC_BOUND) as [Hlt|Hge].
      - destruct (Hall i cell Hcell) as [?|Hin]; [lia|].
        by destruct (resolved_in_grid cells cell Hlt Hin) as (t & _ & ->).
      - unfold resolvedContractAddress.
        by apply Z.ltb_ge in Hge as ->. }
    exists out.
    pose proof (main_chain_stored _ _ _ _ _ _ Hc Hf) as Hm.
    rewrite (chain_of_fulfilled _ _ _ _ tt Hs) by by rewrite Hm.
    rewrite Hm. simpl. split.
    + rewrite !elem_of_app, !list_elem_of_singleton. auto.
    + rewrite !elem_of_app, !list_elem_of_singleton.
      intros [[[Hin|Hin]|Hin]|Hin]; try discriminate.
      * by apply progress_not_navigate in Hin; [|apply cells_promise_events].
      * by apply progress_not_navigate in Hin; [|apply finalize_events].
Qed.

(** ** When the chain settles *)

Lemma chain_ends_with_update (w : World) s a c :
  starts_chain w s a c ->
  exists before flag m,
    chain (load w s a) = before ++ [UpdateSheetStatus a (last_update flag m)] /\
    Forall (fun e => keeps_loading a e = true) before.
Proof.
  intros Hs.
  destruct (main_chain_outcome w c (find_sheet s a) a)
    as [cells out Hc Hf Hm|cells Hc Hf Hm|Hc Hm].
  - rewrite (chain_of_fulfilled _ _ _ _ tt Hs) by by rewrite Hm.
    eexists _, _, _. split; [done|]. rewrite Hm. simpl.
    rewrite !Forall_app. repeat split.
    + eapply Forall_impl; [apply cells_promise_events|].
      intros e. apply progress_keeps_loading.
    + eapply Forall_impl; [apply finalize_events|].
      intros e. apply progress_keeps_loading.
    + by constructor.
  - rewrite (chain_of_rejected _ _ _ _ Hs) by by rewrite Hm.
    exists ((main_chain w c (find_sheet s a) a).1 ++ [Navigate "/"]).
    eexists _, _. split; [by rewrite <- app_assoc|].
    rewrite Hm. simpl. rewrite !Forall_app. repeat split.
    + eapply Forall_impl; [apply cells_promise_events|].
      intros e. apply progress_keeps_loading.
    + eapply Forall_impl; [apply finalize_events|].
      intros e. apply progress_keeps_loading.
    + by constructor.
  - rewrite (chain_of_rejected _ _ _ _ Hs) by by rewrite Hm.
    exists ((main_chain w c (find_sheet s a) a).1 ++ [Navigate "/"]).
    eexists _, _. split; [by rewrite <- app_assoc|].
    rewrite Hm. simpl. rewrite !Forall_app. split.
    + eapply Forall_impl; [apply cells_promise_events|].
      intros e. apply progress_keeps_loading.
    + by constructor.
Qed.

Lemma status_of_schedule (w : World) s a (tr : list event) :
  schedule (load w s a) tr ->
  appStatus_sheets (run_events s tr)
  = appStatus_sheets (run_events s (sync (load w s a) ++ chain (load w s a))).
Proof.
  intros (m & Hm & ->). rewrite !run_events_app.
  apply (run_events_interleave_l appStatus_sheets status_step _ _ _ _ Hm).
  eapply Forall_impl; [apply metadata_events|].
  intros e He. apply status_unseen. by destruct e.
Qed.

Lemma location_of_schedule (w : World) s a (tr : list event) :
  schedule (load w s a) tr ->
  location (run_events s tr)
  = location (run_events s (sync (load w s a) ++ chain (load w s a))).
Proof.
  intros (m & Hm & ->). rewrite !run_events_app.
  apply (run_events_interleave_l location location_step _ _ _ _ Hm).
  eapply Forall_impl; [apply metadata_events|].
  intros e He. apply location_unseen. by destruct e.
Qed.

Lemma status_settled (w : World) s a c (tr : list event) :
  starts_chain w s a c ->
  schedule (load w s a) tr ->
  exists before flag m,
    chain (load w s a) = before ++ [UpdateSheetStatus a (last_update flag m)] /\
    appStatus_sheets (run_events s tr) !! a
    = Some {| loading := false; status_error := flag; message := m |}.
Proof.
  intros Hs Htr.
  destruct (chain_ends_with_update _ _ _ _ Hs) as (before & flag & m & Hch & _).
  exists before, flag, m. split; [done|].
  rewrite (status_of_schedule _ _ _ _ Htr), Hch, app_assoc.
  by rewrite status_after_update.
Qed.

(** C9. For every call of [load] that starts the main chain, the last
    event of the chain, on success and on failure alike, is a status update
    of the sheet with [loading] set to false; once the chain has settled the
    loading flag of the sheet is false, in whatever order the callbacks of
    the two promises ran. *)
Theorem loading_reset_when_settled (w : World) (s : State) (a : string)
    (c : SheetContract) :
  starts_chain w s a c ->
  (exists before u,
     chain (load w s a) = before ++ [UpdateSheetStatus a u] /\
     set_loading u = Some false) /\
  (forall tr, schedule (load w s a) tr ->
     exists status,
       appStatus_sheets (run_events s tr) !! a = Some status /\
       loading status = false).
Proof.
  intros Hs. split.
  - destruct (chain_ends_with_update _ _ _ _ Hs) as (before & flag & m & Hch & _).
    by exists before, (last_update flag m).
  - intros tr Htr.
    destruct (status_settled _ _ _ _ _ Hs Htr) as (_ & flag & m & _ & Hst).
    eexists. split; [exact Hst|done].
Qed.

(** ** Failures of the main chain *)

Lemma count_app (kind : event -> bool) (l k : list event) :
  count kind (l ++ k) = (count kind l + count kind k)%nat.
Proof. unfold count. by rewrite List.filter_app, length_app. Qed.

Lemma count_none (kind : event -> bool) (l : list event) :
  Forall (fun e => kind e = false) l -> count kind l = 0%nat.
Proof.
  unfold count. induction 1 as [|e l He _ IH]; simpl; [done|]. by rewrite He.
Qed.

Lemma count_Promise_all {A B} (kind : event -> bool) (f : A -> Promise B)
    (l : list A) :
  (forall a, (count kind (f a).1 <= 1)%nat) ->
  (count kind (Promise_all (f <$> l)).1 <= length l)%nat.
Proof.
  intros Hf. unfold Promise_all. simpl.
  induction l as [|a l IH]; csimpl; [done|].
  rewrite count_app. specialize (Hf a). lia.
Qed.

Lemma count_fetch_cell (kind : event -> bool) (c : SheetContract) rc :
  (count kind (fetch_cell c rc).1 <= 1)%nat.
Proof.
  unfold fetch_cell, mbind, Promise_bind, and_then, await, count. simpl.
  destruct (getCell c (id rc)); simpl; destruct (kind _); simpl; lia.
Qed.

Lemma count_with_abi (kind : event -> bool) (w : World) array cell :
  (count kind (with_abi w array cell).1 <= 1)%nat.
Proof.
  unfold with_abi, mbind, Promise_bind, and_then, await, count. simpl.
  destruct (resolvedContractAddress array cell) as [r|]; simpl; [|lia].
  destruct (getAbiForContract w (bn2hex r)); simpl; destruct (kind _); simpl; lia.
Qed.

Lemma cells_promise_kinds (c : SheetContract) (sheet : option Sheet) a :
  Forall (fun e => is_progress e = true /\ is_get_abi e = false)
         (cells_promise c sheet a).1.
Proof.
  unfold cells_promise. destruct (has_calldata sheet); [constructor|].
  unfold fetch_cells, mbind, Promise_bind, and_then. simpl.
  destruct (renderCells c) as [rcs|]; simpl; [|constructor].
  constructor; [done|].
  apply Promise_all_events. intros rc _.
  unfold fetch_cell, mbind, Promise_bind, and_then, await. simpl.
  destruct (getCell c (id rc)); simpl; repeat constructor.
Qed.

Lemma finalize_kinds (w : World) a (cells : list Cell) :
  Forall (fun e => is_progress e = true /\ is_get_cell e = false)
         (finalize w a cells).1.
Proof.
  unfold finalize, mbind, Promise_bind, and_then. simpl.
  constructor; [done|].
  apply Promise_all_events. intros cell _.
  unfold with_abi, mbind, Promise_bind, and_then, await. simpl.
  destruct (resolvedContractAddress _ cell) as [r|]; simpl; [|constructor].
  destruct (getAbiForContract w (bn2hex r)); simpl; repeat constructor.
Qed.

Lemma count_cells_promise (kind : event -> bool) (c : SheetContract) sheet a :
  request_kind kind ->
  (count kind (cells_promise c sheet a).1 <= rendered_count c)%nat.
Proof.
  intros Hk. unfold cells_promise, rendered_count.
  destruct (has_calldata sheet); [unfold count; simpl; lia|].
  unfold fetch_cells, mbind, Promise_bind, and_then. simpl.
  destruct (renderCells c) as [rcs|]; simpl; [|done].
  change (?e :: ?l) with ([e] ++ l). rewrite count_app.
  unfold count at 1. simpl. rewrite Hk by done. simpl.
  apply count_Promise_all. intros. apply count_fetch_cell.
Qed.

Lemma count_finalize (kind : event -> bool) (w : World) a cells :
  request_kind kind ->
  (count kind (finalize w a cells).1 <= GRID_SIZE)%nat.
Proof.
  intros Hk. unfold finalize, mbind, Promise_bind, and_then. simpl.
  change (?e :: ?l) with ([e] ++ l). rewrite count_app.
  unfold count at 1. simpl. rewrite Hk by done. simpl.
  etransitivity; [|by rewrite <- (length_grid_of cells)].
  apply (count_Promise_all kind (with_abi w (grid_of cells))).
  intros. apply count_with_abi.
Qed.

Lemma count_cells_promise_other (kind : event -> bool) (c : SheetContract)
    sheet a :
  request_kind kind -> (forall i, kind (GetCell i) = false) ->
  count kind (cells_promise c sheet a).1 = 0%nat.
Proof.
  intros Hk Hcell. apply count_none.
  eapply Forall_impl; [apply cells_promise_kinds|].
  intros e [Hp Habi]. destruct e; try done; by apply Hk.
Qed.

Lemma count_finalize_other (kind : event -> bool) (w : World) a cells :
  request_kind kind -> (forall x, kind (GetAbiForContract x) = false) ->
  count kind (finalize w a cells).1 = 0%nat.
Proof.
  intros Hk Habi. apply count_none.
  eapply Forall_impl; [apply finalize_kinds|].
  intros e [Hp Hcell]. destruct e; try done; by apply Hk.
Qed.

(** The requests of the callbacks of the chain: those of the cells, then
    those of the ABIs, and none from the handlers. *)
Lemma count_chain (kind : event -> bool) (w : World) s a c (n1 n2 : nat) :
  request_kind kind ->
  starts_chain w s a c ->
  (count kind (cells_promise c (find_sheet s a) a).1 <= n1)%nat ->
  (forall cells, (count kind (finalize w a cells).1 <= n2)%nat) ->
  (count kind (chain (load w s a)) <= n1 + n2)%nat.
Proof.
  intros Hk Hs H1 H2.
  assert (Hone : forall e, is_request e = false -> count kind [e] = 0%nat).
  { intros e He. unfold count. simpl. by rewrite Hk. }
  destruct (main_chain_outcome w c (find_sheet s a) a)
    as [cells out Hc Hf Hm|cells Hc Hf Hm|Hc Hm].
  - rewrite (chain_of_fulfilled _ _ _ _ tt Hs) by by rewrite Hm.
    rewrite Hm. cbn [fst]. rewrite !count_app, !Hone by done.
    specialize (H2 cells). lia.
  - rewrite (chain_of_rejected _ _ _ _ Hs) by by rewrite Hm.
    rewrite Hm. cbn [fst].
    change [Navigate "/"; ?e] with ([Navigate "/"] ++ [e]).
    rewrite !count_app, !Hone by done.
    specialize (H2 cells). lia.
  - rewrite (chain_of_rejected _ _ _ _ Hs) by by rewrite Hm.
    rewrite Hm. cbn [fst].
    change [Navigate "/"; ?e] with ([Navigate "/"] ++ [e]).
    rewrite !count_app, !Hone by done. lia.
Qed.

Lemma count_metadata (kind : event -> bool) (w : World) s a :
  request_kind kind -> count kind (metadata (load w s a)) = 0%nat.
Proof.
  intros Hk. apply count_none.
  eapply Forall_impl; [apply metadata_events|].
  intros e He. apply Hk. by destruct e.
Qed.

Lemma request_kind_render_cells : request_kind is_render_cells.
Proof. by intros []. Qed.

Lemma request_kind_call_contract : request_kind is_call_contract.
Proof. by intros []. Qed.

Lemma request_kind_get_cell : request_kind is_get_cell.
Proof. by intros []. Qed.

Lemma request_kind_get_abi : request_kind is_get_abi.
Proof. by intros []. Qed.

(** Every fetch of a run is made once: one [renderCells], one call per
    entrypoint, one [getCell] per rendered cell, one ABI per grid cell. *)
Lemma requests_once (w : World) s a c :
  starts_chain w s a c ->
  (count is_render_cells (all_events (load w s a)) <= 1)%nat /\
  (count is_call_contract (all_events (load w s a)) <= 2)%nat /\
  (count is_get_cell (all_events (load w s a)) <= rendered_count c)%nat /\
  (count is_get_abi (all_events (load w s a)) <= GRID_SIZE)%nat.
Proof.
  intros Hs. unfold all_events. rewrite !count_app.
  rewrite !count_metadata
    by auto using request_kind_render_cells, request_kind_call_contract,
                  request_kind_get_cell, request_kind_get_abi.
  assert (Hrender : (count is_render_cells (chain (load w s a)) <= 0 + 0)%nat).
  { apply (count_chain _ _ _ _ c); auto using request_kind_render_cells.
    - by rewrite count_cells_promise_other
        by auto using request_kind_render_cells.
    - intros. by rewrite count_finalize_other
        by auto using request_kind_render_cells. }
  assert (Hcall : (count is_call_contract (chain (load w s a)) <= 0 + 0)%nat).
  { apply (count_chain _ _ _ _ c); auto using request_kind_call_contract.
    - by rewrite count_cells_promise_other
        by auto using request_kind_call_contract.
    - intros. by rewrite count_finalize_other
        by auto using request_kind_call_contract. }
  assert (Hcell : (count is_get_cell (chain (load w s a))
                   <= rendered_count c + 0)%nat).
  { apply (count_chain _ _ _ _ c); auto using request_kind_get_cell.
    - apply count_cells_promise, request_kind_get_cell.
    - intros. by rewrite count_finalize_other
        by auto using request_kind_get_cell. }
  assert (Habi : (count is_get_abi (chain (load w s a)) <= 0 + GRID_SIZE)%nat).
  { apply (count_chain _ _ _ _ c); auto using request_kind_get_abi.
    - by rewrite count_cells_promise_other by auto using request_kind_get_abi.
    - intros. apply count_finalize, request_kind_get_abi. }
  rewrite (load_starts _ _ _ _ Hs) in *. simpl in *.
  unfold count at 1 3 5 7.
  destruct (find_sheet s a), (has_calldata _); simpl; lia.
Qed.

Lemma prefix_append (p q : string) : String.prefix p (p +:+ q) = true.
Proof.
  induction p as [|ch p IH]; simpl; [by destruct q|].
  destruct (Ascii.ascii_dec ch ch); [exact IH|done].
Qed.

Lemma error_message_names_address (a : string) :
  String.prefix ("Error: Starksheet cannot render sheet at address " +:+ a)
                (error_message a) = true.
Proof.
  unfold error_message.
  set (p := "Error: Starksheet cannot render sheet at address ").
  replace (p +:+ a +:+ newline +:+ indent +:+ "<br />" +:+ newline
             +:+ indent +:+ "<br />" +:+ newline +:+ indent
             +:+ "Double check address or create a new sheet by clicking on the + button")
    with ((p +:+ a) +:+ (newline +:+ indent +:+ "<br />" +:+ newline
             +:+ indent +:+ "<br />" +:+ newline +:+ indent
             +:+ "Double check address or create a new sheet by clicking on the + button")).
  - apply prefix_append.
  - unfold p. simpl. done.
Qed.

(** C4. For every failure of the main chain, the chain ends with one
    navigation to the root route followed by the status update that carries
    the message: once the chain has settled the route is ["/"] and the
    message of the sheet is the fixed text, which names the address. The
    handlers send no request, and over the whole run every fetch was made
    once: nothing is retried. *)
Theorem failure_navigates_home (w : World) (s : State) (a : string)
    (c : SheetContract) :
  starts_chain w s a c ->
  (main_chain w c (find_sheet s a) a).2 = Rejected ->
  (exists attempt u,
     chain (load w s a) = attempt ++ [Navigate "/"; UpdateSheetStatus a u] /\
     set_message u = Some (error_message a) /\
     Forall (fun e => is_progress e = true) attempt) /\
  String.prefix ("Error: Starksheet cannot render sheet at address " +:+ a)
                (error_message a) = true /\
  (forall tr, schedule (load w s a) tr ->
     location (run_events s tr) = "/" /\
     exists status,
       appStatus_sheets (run_events s tr) !! a = Some status /\
       message status = error_message a) /\
  (count is_render_cells (all_events (load w s a)) <= 1)%nat /\
  (count is_call_contract (all_events (load w s a)) <= 2)%nat /\
  (count is_get_cell (all_events (load w s a)) <= rendered_count c)%nat /\
  (count is_get_abi (all_events (load w s a)) <= GRID_SIZE)%nat.
Proof.
  intros Hs Hrej.
  pose proof (chain_of_rejected _ _ _ _ Hs Hrej) as Hch.
  split; [|split; [|split]].
  - eexists _, _. split; [exact Hch|]. split; [done|].
    by apply main_chain_rejected_events.
  - apply error_message_names_address.
  - intros tr Htr. split.
    + rewrite (location_of_schedule _ _ _ _ Htr), Hch.
      by rewrite !app_assoc, !run_events_app.
    + destruct (status_settled _ _ _ _ _ Hs Htr) as (before & flag & m & Hch' & Hst).
      eexists. split; [exact Hst|]. simpl.
      rewrite Hch in Hch'.
      change [Navigate "/"; ?e] with ([Navigate "/"] ++ [e]) in Hch'.
      rewrite app_assoc in Hch'. apply app_inj_tail in Hch' as [_ Heq].
      by injection Heq as _ ->.
  - by apply requests_once.
Qed.

(** The variable [error] of line 96 is never assigned: the status update
    that ends a chain always carries [false]. *)
Lemma error_flag_of_chain (w : World) s a c :
  starts_chain w s a c ->
  exists before m,
    chain (load w s a) = before ++ [UpdateSheetStatus a (last_update false m)].
Proof.
  intros Hs.
  destruct ((main_chain w c (find_sheet s a) a).2) as [u|] eqn:Hm.
  - rewrite (chain_of_fulfilled _ _ _ _ _ Hs Hm). by eexists _, _.
  - rewrite (chain_of_rejected _ _ _ _ Hs Hm).
    exists ((main_chain w c (find_sheet s a) a).1 ++ [Navigate "/"]).
    eexists. by rewrite <- app_assoc.
Qed.

Lemma error_flag_when_settled (w : World) s a c (tr : list event) :
  starts_chain w s a c ->
  schedule (load w s a) tr ->
  exists status,
    appStatus_sheets (run_events s tr) !! a = Some status /\
    status_error status = false.
Proof.
  intros Hs Htr.
  destruct (error_flag_of_chain _ _ _ _ Hs) as (before & m & Hch).
  rewrite (status_of_schedule _ _ _ _ Htr), Hch, app_assoc.
  rewrite status_after_update. by eexists.
Qed.

(** ** The guards *)

Lemma load_while_loading (w : World) s a :
  is_loading s a = true -> load w s a = no_run.
Proof.
  intros Hl. unfold load. destruct (String.eqb a ""); [done|].
  destruct (contract w); [|done]. by rewrite Hl.
Qed.

Lemma schedule_no_run (tr : list event) : schedule no_run tr -> tr = [].
Proof. intros (m & Hm & ->). simpl in *. by apply interleave_nil_l in Hm. Qed.

Lemma in_flight_starts (w : World) s a (tr : list event) :
  in_flight (load w s a) tr -> exists c, starts_chain w s a c.
Proof.
  intros (md & ch & rmd & rch & m & _ & Hch & Hne & _).
  destruct (load_cases w s a) as [Hl|[(_ & Hl & _)|Hs]]; [| |done].
  - rewrite Hl in Hch. simpl in Hch. symmetry in Hch.
    by apply app_eq_nil in Hch as [_ ?].
  - rewrite Hl in Hch. symmetry in Hch. by apply app_eq_nil in Hch as [_ ?].
Qed.

(** The events of a chain that has not settled leave the loading flag of
    the address set, whatever the state they are applied to. *)
Lemma in_flight_loading_from (w : World) s s' a (tr : list event) :
  in_flight (load w s a) tr -> is_loading (run_events s' tr) a = true.
Proof.
  intros Hfl. destruct (in_flight_starts _ _ _ _ Hfl) as [c Hs].
  destruct Hfl as (md & ch & rmd & rch & m & Hmd & Hch & Hne & Hm & ->).
  destruct (chain_ends_with_update _ _ _ _ Hs) as (before & flag & msg & Hend & Hkeep).
  assert (Hch_keeps : Forall (fun e => keeps_loading a e = true) ch).
  { destruct rch as [|e rch _] using rev_ind; [done|].
    rewrite Hend, app_assoc in Hch. apply app_inj_tail in Hch as [-> _].
    by apply Forall_app in Hkeep as [? _]. }
  assert (Hmd_keeps : Forall (fun e => keeps_loading a e = true) md).
  { pose proof (metadata_events w s a) as Hmeta.
    rewrite Hmd in Hmeta. apply Forall_app in Hmeta as [Hmeta _].
    eapply Forall_impl; [exact Hmeta|]. intros e He. by destruct e. }
  rewrite (load_starts _ _ _ _ Hs). cbn [sync].
  rewrite run_events_app, is_loading_run
    by (eapply interleave_Forall; eauto).
  change ([?x; ?y] ++ ?l) with ([x] ++ ([y] ++ l)).
  rewrite run_events_app, is_loading_run; [apply is_loading_first_update|].
  rewrite !Forall_app. split; [|split].
  - repeat constructor. apply orb_true_r.
  - destruct (find_sheet s a); by repeat constructor.
  - destruct (has_calldata _); by repeat constructor.
Qed.

Lemma in_flight_loading (w : World) s a (tr : list event) :
  in_flight (load w s a) tr -> is_loading (run_events s tr) a = true.
Proof. apply in_flight_loading_from. Qed.


(** C7. If the shared values already hold a non-empty cell array for the
    address, [load] sets the loading flag of the sheet and sets it back to
    false, and returns: it sends no request and starts no chain, and the
    stored arrays, of this address and of every other, are what they
    were. *)
Theorem stored_values_are_kept (w : World) (s : State) (a : string)
    (c : SheetContract) (cells : list Cell) :
  a <> "" ->
  contract w = Some c ->
  is_loading s a = false ->
  values s !! a = Some cells ->
  cells <> [] ->
  load w s a
  = {| sync := [UpdateSheetStatus a first_update;
                UpdateSheetStatus a
                  {| set_loading := Some false; set_error := None;
                     set_message := None |}];
       metadata := [];
       chain := [] |} /\
  Forall (fun e => is_request e = false) (all_events (load w s a)) /\
  (forall tr, schedule (load w s a) tr ->
     values (run_events s tr) = values s /\
     exists status,
       appStatus_sheets (run_events s tr) !! a = Some status /\
       loading status = false).
Proof.
  intros Ha Hc Hl Hv Hne.
  assert (Hhas : has_values s a = true).
  { unfold has_values. rewrite Hv. by destruct cells. }
  assert (Hrun : load w s a
    = {| sync := [UpdateSheetStatus a first_update;
                  UpdateSheetStatus a
                    {| set_loading := Some false; set_error := None;
                       set_message := None |}];
         metadata := []; chain := [] |}).
  { unfold load. destruct (String.eqb_spec a ""); [done|].
    by rewrite Hc, Hl, Hhas. }
  rewrite Hrun. split; [done|]. split; [by repeat constructor|].
  intros tr (m & Hm & ->). simpl in Hm. apply interleave_nil_l in Hm as ->.
  split; [done|]. simpl. unfold update_status.
  rewrite lookup_insert_eq. by eexists.
Qed.

(** ** The metadata of the sheet *)

Lemma find_sheet_None (s : State) a :
  find_sheet s a = None
  <-> forall sheet, sheet ∈ onsheet_sheets s -> sheet_address sheet <> a.
Proof.
  unfold find_sheet. split.
  - intros Hf sheet Hin Heq. apply list_elem_of_In in Hin.
    pose proof (List.find_none _ _ Hf _ Hin) as Hno. simpl in Hno.
    by rewrite Heq, String.eqb_refl in Hno.
  - intros Hno.
    destruct (find _ (onsheet_sheets s)) as [sheet|] eqn:Hf; [|done].
    apply List.find_some in Hf as [Hin Heq].
    apply String.eqb_eq in Heq. apply list_elem_of_In in Hin.
    by apply Hno in Hin.
Qed.

Lemma find_sheet_known (s : State) a sheet :
  sheet ∈ onsheet_sheets s -> sheet_address sheet = a ->
  is_Some (find_sheet s a).
Proof.
  intros Hin Heq. destruct (find_sheet s a) eqn:Hf; [done|].
  by eapply find_sheet_None in Hf.
Qed.

Lemma chain_kinds (w : World) s a :
  Forall (fun e => is_call_contract e = false /\ is_append_sheet e = false)
         (chain (load w s a)).
Proof.
  destruct (load_cases w s a) as [->|[(_ & -> & _)|[c Hs]]]; [constructor..|].
  assert (Hprog : forall l, Forall (fun e => is_progress e = true) l ->
            Forall (fun e => is_call_contract e = false /\
                             is_append_sheet e = false) l).
  { intros l Hl. eapply Forall_impl; [exact Hl|]. intros e He. by destruct e. }
  destruct (main_chain_outcome w c (find_sheet s a) a)
    as [cells out Hc Hf Hm|cells Hc Hf Hm|Hc Hm].
  - rewrite (chain_of_fulfilled _ _ _ _ tt Hs) by by rewrite Hm.
    rewrite Hm. cbn [fst]. rewrite !Forall_app. repeat split.
    + apply Hprog, cells_promise_events.
    + apply Hprog, finalize_events.
    + by repeat constructor.
    + by repeat constructor.
  - rewrite (chain_of_rejected _ _ _ _ Hs) by by rewrite Hm.
    rewrite Hm. cbn [fst]. rewrite !Forall_app. repeat split.
    + apply Hprog, cells_promise_events.
    + apply Hprog, finalize_events.
    + by repeat constructor.
  - rewrite (chain_of_rejected _ _ _ _ Hs) by by rewrite Hm.
    rewrite Hm. cbn [fst]. rewrite !Forall_app. repeat split.
    + apply Hprog, cells_promise_events.
    + by repeat constructor.
Qed.

Lemma filter_none (kind : event -> bool) (l : list event) :
  Forall (fun e => kind e = false) l -> List.filter kind l = [].
Proof. induction 1 as [|e l He _ IH]; simpl; [done|]. by rewrite He. Qed.

Lemma sheets_of_schedule (w : World) s a c (tr : list event) :
  starts_chain w s a c ->
  schedule (load w s a) tr ->
  onsheet_sheets (run_events s tr)
  = onsheet_sheets (run_events s (metadata (load w s a))).
Proof.
  intros Hs (m & Hm & ->). rewrite run_events_app.
  rewrite (run_events_interleave_r onsheet_sheets sheets_step _ _ _ _ Hm).
  - apply (run_events_view onsheet_sheets sheets_step).
    apply (run_events_unseen onsheet_sheets).
    rewrite (load_starts _ _ _ _ Hs). cbn [sync].
    apply Forall_forall. intros e He. apply sheets_unseen.
    rewrite !elem_of_app in He.
    destruct He as [He|[He|He]].
    + repeat (apply elem_of_cons in He as [->|He]; [done|]).
      by apply elem_of_nil in He.
    + destruct (find_sheet s a); [by apply elem_of_nil in He|].
      repeat (apply elem_of_cons in He as [->|He]; [done|]).
      by apply elem_of_nil in He.
    + destruct (has_calldata _); [by apply elem_of_nil in He|].
      apply list_elem_of_singleton in He as ->. done.
  - eapply Forall_impl; [apply chain_kinds|].
    intros e [_ He]. by apply sheets_unseen.
Qed.

(** C5. When [load] gets to its fetches for an address that no known sheet
    has, the calls it makes through the chain client are two, both to that
    address: one for the entrypoint [name] and one for [symbol]; when both
    answers come and decode ([hex2str(normalizeHexString(result[0]))]), one
    sheet with the decoded name, the decoded symbol and the address is
    appended to the known sheets. When a known
    sheet has the address, no such call is made and nothing is appended. *)
Theorem sheet_metadata_lookup (w : World) (s : State) (a : string)
    (c : SheetContract) :
  starts_chain w s a c ->
  ((forall sheet, sheet ∈ onsheet_sheets s -> sheet_address sheet <> a) ->
   List.filter is_call_contract (all_events (load w s a))
   = [CallContract a "name"; CallContract a "symbol"] /\
   (forall r1 r2 hex_name hex_symbol decoded_name decoded_symbol,
      callContract w a "name" = Fulfilled r1 ->
      callContract w a "symbol" = Fulfilled r2 ->
      normalizeHexString (head r1) = Some hex_name ->
      hex2str hex_name = Some decoded_name ->
      normalizeHexString (head r2) = Some hex_symbol ->
      hex2str hex_symbol = Some decoded_symbol ->
      let sheet := {| name := decoded_name; symbol := decoded_symbol;
                      sheet_address := a; sheet_calldata := None |} in
      metadata (load w s a) = [AppendSheet sheet] /\
      (forall tr, schedule (load w s a) tr ->
         onsheet_sheets (run_events s tr) = onsheet_sheets s ++ [sheet]))) /\
  ((exists sheet, sheet ∈ onsheet_sheets s /\ sheet_address sheet = a) ->
   List.filter is_call_contract (all_events (load w s a)) = [] /\
   List.filter is_append_sheet (all_events (load w s a)) = [] /\
   (forall tr, schedule (load w s a) tr ->
      onsheet_sheets (run_events s tr) = onsheet_sheets s)).
Proof.
  intros Hs.
  assert (Hchain_call : List.filter is_call_contract (chain (load w s a)) = []).
  { apply filter_none. eapply Forall_impl; [apply chain_kinds|]. by intros e []. }
  assert (Hchain_append :
            List.filter is_append_sheet (chain (load w s a)) = []).
  { apply filter_none. eapply Forall_impl; [apply chain_kinds|]. by intros e []. }
  assert (Hmeta_call :
            List.filter is_call_contract (metadata (load w s a)) = []).
  { apply filter_none. eapply Forall_impl; [apply metadata_events|].
    intros e He. by destruct e. }
  split.
  - intros Hunknown. apply find_sheet_None in Hunknown.
    split.
    + unfold all_events. rewrite !List.filter_app, Hchain_call, Hmeta_call.
      rewrite (load_starts _ _ _ _ Hs). cbn [sync]. rewrite Hunknown.
      rewrite !List.filter_app. by destruct (has_calldata None).
    + intros r1 r2 hn hsy n sy H1 H2 Hhn Hn Hhsy Hsy sheet.
      assert (Hdn : decode_result r1 = Some n).
      { unfold decode_result. rewrite Hhn. exact Hn. }
      assert (Hdsy : decode_result r2 = Some sy).
      { unfold decode_result. rewrite Hhsy. exact Hsy. }
      assert (Hmeta : metadata (load w s a) = [AppendSheet sheet]).
      { rewrite (load_starts _ _ _ _ Hs). cbn [metadata]. rewrite Hunknown.
        unfold register_sheet, mbind, Promise_bind, and_then, Promise_all.
        simpl. rewrite H1, H2. simpl. by rewrite Hdn, Hdsy. }
      split; [done|]. intros tr Htr.
      by rewrite (sheets_of_schedule _ _ _ _ _ Hs Htr), Hmeta.
  - intros (sheet & Hin & Haddr).
    destruct (find_sheet_known _ _ _ Hin Haddr) as [known Hknown].
    assert (Hmeta : metadata (load w s a) = []).
    { rewrite (load_starts _ _ _ _ Hs). cbn [metadata]. by rewrite Hknown. }
    split; [|split].
    + unfold all_events. rewrite !List.filter_app, Hchain_call, Hmeta.
      rewrite (load_starts _ _ _ _ Hs). cbn [sync]. rewrite Hknown.
      rewrite !List.filter_app. by destruct (has_calldata _).
    + unfold all_events. rewrite !List.filter_app, Hchain_append, Hmeta.
      rewrite (load_starts _ _ _ _ Hs). cbn [sync]. rewrite Hknown.
      rewrite !List.filter_app. by destruct (has_calldata _).
    + intros tr Htr.
      by rewrite (sheets_of_schedule _ _ _ _ _ Hs Htr), Hmeta.
Qed.

End Properties.

(** * More of the component *)

Section MoreProperties.
Context `{Imports}.

(** ** Column names *)

Lemma colNames_lookup (col : nat) :
  (col < N_COL)%nat ->
  colNames !! col = Some (toUpperCase (toString36 (col + 10))).
Proof.
  intros Hcol. unfold colNames.
  rewrite lookup_drop, list_lookup_fmap, lookup_seq_lt by lia. simpl.
  do 3 f_equal. lia.
Qed.

Lemma digit_value_upper_digit36 (d : nat) :
  (d < 36)%nat -> digit_value (upper_ascii (digit36 d)) = d.
Proof.
  intros Hd. do 36 (destruct d as [|d]; [reflexivity|]). lia.
Qed.

Lemma parseInt36_toString36_go (fuel n : nat) (acc : string) :
  (n < fuel)%nat ->
  parseInt36_go 0 (toUpperCase (toString36_go fuel n acc))
  = parseInt36_go n (toUpperCase acc).
Proof.
  revert n acc. induction fuel as [|fuel IH]; intros n acc Hn; [lia|].
  cbn [toString36_go].
  pose proof (Nat.div_mod_eq n 36) as Hdm.
  pose proof (Nat.mod_upper_bound n 36 ltac:(lia)) as Hmod.
  destruct (Nat.eqb_spec (n / 36) 0) as [Hz|Hnz].
  - cbn [toUpperCase parseInt36_go].
    rewrite digit_value_upper_digit36 by done. f_equal. lia.
  - rewrite IH.
    + cbn [toUpperCase parseInt36_go].
      rewrite digit_value_upper_digit36 by done. f_equal. lia.
    + assert (n / 36 < n)%nat by (apply Nat.div_lt; lia). lia.
Qed.

Lemma parseInt36_toString36 (n : nat) :
  parseInt36 (toUpperCase (toString36 n)) = n.
Proof.
  unfold parseInt36, toString36.
  by rewrite parseInt36_toString36_go by lia.
Qed.

(** X1. The first 26 columns are named by the capital letters, in order:
    column 0 is [A] and column 25 is [Z]. *)
Theorem column_letters (col : nat) :
  (col < N_COL)%nat -> (col < 26)%nat ->
  colNames !! col = Some (String (ascii_of_nat (65 + col)) EmptyString).
Proof.
  intros Hcol Hletter. rewrite colNames_lookup by done.
  do 26 (destruct col as [|col]; [reflexivity|]). lia.
Qed.

(** X2. No two columns have the same name, however many columns there
    are: the names can be the keys of the header cells. *)
Theorem column_names_distinct : NoDup colNames.
Proof.
  apply NoDup_alt. intros i j name Hi Hj.
  pose proof (lookup_lt_Some _ _ _ Hi) as Hilt.
  pose proof (lookup_lt_Some _ _ _ Hj) as Hjlt.
  rewrite length_colNames in Hilt, Hjlt.
  rewrite colNames_lookup in Hi, Hj by done.
  assert (Heq : parseInt36 (toUpperCase (toString36 (i + 10)))
                = parseInt36 (toUpperCase (toString36 (j + 10))))
    by congruence.
  rewrite !parseInt36_toString36 in Heq. lia.
Qed.

(** ** The rows *)

Lemma length_append (s t : string) :
  String.length (s +:+ t) = (String.length s + String.length t)%nat.
Proof. induction s as [|c s IH]; simpl; [done|]. by rewrite IH. Qed.

Lemma append_cancel_r (s1 s2 t : string) : s1 +:+ t = s2 +:+ t -> s1 = s2.
Proof.
  revert s2. induction s1 as [|c s1 IH]; intros [|c' s2] Heq.
  - done.
  - apply (f_equal String.length) in Heq.
    rewrite !length_append in Heq. simpl in Heq. lia.
  - apply (f_equal String.length) in Heq.
    rewrite !length_append in Heq. simpl in Heq. lia.
  - change (String c (s1 +:+ t) = String c' (s2 +:+ t)) in Heq.
    injection Heq as -> Heq. f_equal. by apply IH.
Qed.

Lemma shows_grid_ready (s : State) a status (cells : list Cell) :
  a <> "" ->
  appStatus_sheets s !! a = Some status ->
  loading status = false ->
  values s !! a = Some cells ->
  length cells = GRID_SIZE ->
  shows_grid s a = true /\ cells_of s a = Some cells.
Proof.
  intros Ha Hst Hl Hv Hlen.
  assert (Hcells : cells_of s a = Some cells).
  { unfold cells_of. by destruct (String.eqb_spec a ""). }
  split; [|done]. unfold shows_grid. rewrite Hcells, Hst, Hl, Hlen.
  destruct (String.eqb_spec a ""); [done|]. simpl. by rewrite Nat.eqb_refl.
Qed.

Lemma rows_lookup (s : State) a (cells : list Cell) (r : nat) :
  shows_grid s a = true ->
  cells_of s a = Some cells ->
  (r < N_ROW)%nat ->
  SheetTable_rows s a !! r
  = Some ((r + 1)%nat,
          imap (fun (colIndex : nat) (name : string) =>
                  (name +:+ pretty (r + 1)%nat,
                   cells !! (colIndex + N_COL * r)%nat))
               colNames).
Proof.
  intros Hshow Hcells Hr. unfold SheetTable_rows.
  rewrite Hshow, Hcells. simpl.
  by rewrite list_lookup_fmap, lookup_seq_lt.
Qed.

Lemma rows_length (s : State) a :
  shows_grid s a = true -> length (SheetTable_rows s a) = N_ROW.
Proof.
  intros Hshow. unfold SheetTable_rows. rewrite Hshow.
  by rewrite length_fmap, length_seq.
Qed.


(** X4. For a sheet that is ready, the component renders [N_ROW] rows; row
    [r] is labelled [r + 1] and has [N_COL] cells, whose keys are pairwise
    distinct. *)
Theorem rows_shape (s : State) (a : string) (status : SheetStatus)
    (cells : list Cell) :
  a <> "" ->
  appStatus_sheets s !! a = Some status ->
  loading status = false ->
  values s !! a = Some cells ->
  length cells = GRID_SIZE ->
  length (SheetTable_rows s a) = N_ROW /\
  forall r : nat, (r < N_ROW)%nat ->
    exists row,
      SheetTable_rows s a !! r = Some row /\
      row.1 = (r + 1)%nat /\
      length row.2 = N_COL /\
      NoDup (row_keys row).
Proof.
  intros Ha Hst Hl Hv Hlen.
  destruct (shows_grid_ready _ _ _ _ Ha Hst Hl Hv Hlen) as [Hshow Hcells].
  split; [by apply rows_length|].
  intros r Hr. eexists. split; [by apply rows_lookup|].
  split; [done|]. split.
  - simpl. by rewrite length_imap, length_colNames.
  - unfold row_keys. simpl. rewrite fmap_imap.
    rewrite (imap_ext _ (const (fun name => name +:+ pretty (r + 1)%nat)))
      by done.
    rewrite imap_const.
    apply NoDup_fmap_2_strong; [|apply column_names_distinct].
    intros x y _ _. apply append_cancel_r.
Qed.

Lemma row_cells_lookup (cells : list Cell) (r : nat) :
  snd <$> imap (fun (colIndex : nat) (name : string) =>
                  (name +:+ pretty (r + 1)%nat,
                   cells !! (colIndex + N_COL * r)%nat))
               colNames
  = (fun i : nat => cells !! i) <$> seq (N_COL * r) N_COL.
Proof.
  rewrite fmap_imap.
  rewrite (imap_ext _ (fun j _ => cells !! (N_COL * r + j)%nat)).
  - by rewrite (imap_seq colNames (fun i : nat => cells !! i) (N_COL * r)),
       length_colNames.
  - intros i name _. simpl. f_equal. lia.
Qed.

Lemma concat_rows (cells : list Cell) (r0 k : nat) :
  concat ((fun r : nat => (fun i : nat => cells !! i)
                            <$> seq (N_COL * r) N_COL) <$> seq r0 k)
  = (fun i : nat => cells !! i) <$> seq (N_COL * r0) (N_COL * k).
Proof.
  revert r0. induction k as [|k IH]; intros r0.
  - by rewrite Nat.mul_0_r.
  - csimpl. rewrite IH.
    replace (N_COL * S k)%nat with (N_COL + N_COL * k)%nat by lia.
    rewrite seq_app, fmap_app. do 3 f_equal. lia.
Qed.

Lemma lookups_of_all (cells : list Cell) :
  (fun i : nat => cells !! i) <$> seq 0 (length cells) = Some <$> cells.
Proof.
  apply list_eq. intros i. rewrite !list_lookup_fmap.
  destruct (decide (i < length cells)%nat) as [Hi|Hi].
  - rewrite lookup_seq_lt by done. simpl.
    destruct (lookup_lt_is_Some_2 cells i Hi) as [x Hx]. by rewrite Hx.
  - rewrite lookup_seq_ge by lia.
    by rewrite (proj2 (lookup_ge_None cells i)) by lia.
Qed.

(** X5. When the grid has as many cells as the table has places
    ([GRID_SIZE = N_COL * N_ROW]), the cells of the rows, read row after
    row, are the stored cells in their order: every stored cell is rendered
    once, and no place of the table is left without a cell. *)
Theorem rows_are_the_cells (s : State) (a : string) (status : SheetStatus)
    (cells : list Cell) :
  GRID_SIZE = (N_COL * N_ROW)%nat ->
  a <> "" ->
  appStatus_sheets s !! a = Some status ->
  loading status = false ->
  values s !! a = Some cells ->
  length cells = GRID_SIZE ->
  concat (row_cells <$> SheetTable_rows s a) = Some <$> cells.
Proof.
  intros Hsize Ha Hst Hl Hv Hlen.
  destruct (shows_grid_ready _ _ _ _ Ha Hst Hl Hv Hlen) as [Hshow Hcells].
  unfold SheetTable_rows. rewrite Hshow, Hcells. simpl.
  rewrite <- list_fmap_compose.
  rewrite (list_fmap_ext _
             (fun r : nat => (fun i : nat => cells !! i)
                               <$> seq (N_COL * r) N_COL)).
  - rewrite concat_rows, Nat.mul_0_r, <- Hsize, <- Hlen.
    apply lookups_of_all.
  - intros i r _. unfold row_cells. simpl. apply row_cells_lookup.
Qed.


(** ** The state a load leaves *)

Lemma values_step (s1 s2 : State) e :
  values s1 = values s2 -> values (apply_event s1 e) = values (apply_event s2 e).
Proof. intros Hs. destruct e; simpl; congruence. Qed.

Lemma State_eq (s1 s2 : State) :
  appStatus_sheets s1 = appStatus_sheets s2 ->
  values s1 = values s2 ->
  onsheet_sheets s1 = onsheet_sheets s2 ->
  location s1 = location s2 ->
  s1 = s2.
Proof. destruct s1, s2. simpl. congruence. Qed.

Lemma values_of_schedule (w : World) s a (tr : list event) :
  schedule (load w s a) tr ->
  values (run_events s tr)
  = values (run_events s (sync (load w s a) ++ chain (load w s a))).
Proof.
  intros (m & Hm & ->). rewrite !run_events_app.
  apply (run_events_interleave_l values values_step _ _ _ _ Hm).
  eapply Forall_impl; [apply metadata_events|].
  intros e He. apply values_unseen. by destruct e.
Qed.

(** What the call itself does: status updates of the address and
    requests. *)
Lemma sync_kinds (w : World) s a :
  Forall (fun e => is_set_values e = false /\ is_navigate e = false /\
                   is_append_sheet e = false /\
                   keeps_other_sheets a e = true)
         (sync (load w s a)).
Proof.
  assert (Ha : String.eqb a a = true) by apply String.eqb_refl.
  unfold load. destruct (String.eqb a ""); [constructor|].
  destruct (contract w); [|constructor].
  destruct (is_loading s a); [constructor|].
  destruct (has_values s a); simpl.
  - repeat constructor; done.
  - destruct (find_sheet s a), (has_calldata _); simpl;
      repeat constructor; done.
Qed.

Lemma sync_keeps_state (w : World) s a :
  values (run_events s (sync (load w s a))) = values s /\
  location (run_events s (sync (load w s a))) = location s /\
  onsheet_sheets (run_events s (sync (load w s a))) = onsheet_sheets s.
Proof.
  pose proof (sync_kinds w s a) as Hk. repeat split.
  - apply (run_events_unseen values). eapply Forall_impl; [exact Hk|].
    intros e (? & _). by apply values_unseen.
  - apply (run_events_unseen location). eapply Forall_impl; [exact Hk|].
    intros e (_ & ? & _). by apply location_unseen.
  - apply (run_events_unseen onsheet_sheets). eapply Forall_impl; [exact Hk|].
    intros e (_ & _ & ? & _). by apply sheets_unseen.
Qed.

Lemma progress_keeps_state (s : State) (l : list event) :
  Forall (fun e => is_progress e = true) l ->
  values (run_events s l) = values s /\
  location (run_events s l) = location s.
Proof.
  intros Hl. split.
  - apply (run_events_unseen values). eapply Forall_impl; [exact Hl|].
    intros e He. apply values_unseen. by destruct e.
  - apply (run_events_unseen location). eapply Forall_impl; [exact Hl|].
    intros e He. apply location_unseen. by destruct e.
Qed.

Lemma chain_of_stored (w : World) s a c cells out :
  starts_chain w s a c ->
  (cells_promise c (find_sheet s a) a).2 = Fulfilled cells ->
  (finalize w a cells).2 = Fulfilled out ->
  chain (load w s a)
  = ((cells_promise c (find_sheet s a) a).1 ++ (finalize w a cells).1)
      ++ [SetValues a out; UpdateSheetStatus a (last_update false "")].
Proof.
  intros Hs Hc Hf.
  pose proof (main_chain_stored _ _ _ _ _ _ Hc Hf) as Hm.
  rewrite (chain_of_fulfilled _ _ _ _ tt Hs) by by rewrite Hm.
  rewrite Hm. cbn [fst]. by rewrite <- !app_assoc.
Qed.

Lemma values_after_success (w : World) s a c cells out (tr : list event) :
  starts_chain w s a c ->
  (cells_promise c (find_sheet s a) a).2 = Fulfilled cells ->
  (finalize w a cells).2 = Fulfilled out ->
  schedule (load w s a) tr ->
  values (run_events s tr) = <[a := out]> (values s).
Proof.
  intros Hs Hc Hf Htr.
  rewrite (values_of_schedule _ _ _ _ Htr).
  rewrite (chain_of_stored _ _ _ _ _ _ Hs Hc Hf), !run_events_app.
  change (values (run_events ?x [SetValues a out; ?u]))
    with (<[a := out]> (values x)).
  destruct (progress_keeps_state
              (run_events (run_events s (sync (load w s a)))
                          (cells_promise c (find_sheet s a) a).1)
              _ (finalize_events w a cells)) as [-> _].
  destruct (progress_keeps_state
              (run_events s (sync (load w s a)))
              _ (cells_promise_events c (find_sheet s a) a)) as [-> _].
  by destruct (sync_keeps_state w s a) as [-> _].
Qed.

Lemma location_after_success (w : World) s a c cells out (tr : list event) :
  starts_chain w s a c ->
  (cells_promise c (find_sheet s a) a).2 = Fulfilled cells ->
  (finalize w a cells).2 = Fulfilled out ->
  schedule (load w s a) tr ->
  location (run_events s tr) = location s.
Proof.
  intros Hs Hc Hf Htr.
  rewrite (location_of_schedule _ _ _ _ Htr).
  rewrite (chain_of_stored _ _ _ _ _ _ Hs Hc Hf), !run_events_app.
  change (location (run_events ?x [SetValues a out; ?u])) with (location x).
  destruct (progress_keeps_state
              (run_events (run_events s (sync (load w s a)))
                          (cells_promise c (find_sheet s a) a).1)
              _ (finalize_events w a cells)) as [_ ->].
  destruct (progress_keeps_state
              (run_events s (sync (load w s a)))
              _ (cells_promise_events c (find_sheet s a) a)) as [_ ->].
  by destruct (sync_keeps_state w s a) as (_ & -> & _).
Qed.

Lemma status_after_success (w : World) s a c cells out (tr : list event) :
  starts_chain w s a c ->
  (cells_promise c (find_sheet s a) a).2 = Fulfilled cells ->
  (finalize w a cells).2 = Fulfilled out ->
  schedule (load w s a) tr ->
  appStatus_sheets (run_events s tr) !! a
  = Some {| loading := false; status_error := false; message := "" |}.
Proof.
  intros Hs Hc Hf Htr.
  rewrite (status_of_schedule _ _ _ _ Htr).
  rewrite (chain_of_stored _ _ _ _ _ _ Hs Hc Hf).
  change [SetValues a out; ?e] with ([SetValues a out] ++ [e]).
  rewrite !app_assoc. by rewrite status_after_update.
Qed.

(** X7. When the cells are fetched and every ABI lookup succeeds, the
    state once the chain has settled is the same for every order of the
    callbacks: the array is stored under the address and the arrays of the
    other sheets are kept, the route is not changed, and the status of the
    sheet is not loading, not errored, with an empty message. *)
Theorem state_after_success (w : World) (s : State) (a : string)
    (c : SheetContract) (cells out : list Cell) (tr : list event) :
  starts_chain w s a c ->
  (cells_promise c (find_sheet s a) a).2 = Fulfilled cells ->
  (finalize w a cells).2 = Fulfilled out ->
  schedule (load w s a) tr ->
  values (run_events s tr) = <[a := out]> (values s) /\
  location (run_events s tr) = location s /\
  appStatus_sheets (run_events s tr) !! a
  = Some {| loading := false; status_error := false; message := "" |}.
Proof.
  intros Hs Hc Hf Htr. split; [|split].
  - by eapply values_after_success.
  - by eapply location_after_success.
  - by eapply status_after_success.
Qed.

Lemma rejected_stores_nothing (w : World) s a c :
  starts_chain w s a c ->
  (main_chain w c (find_sheet s a) a).2 = Rejected ->
  forall a' out, SetValues a' out ∉ all_events (load w s a).
Proof.
  intros Hs Hrej a' out Hin.
  destruct (set_values_in_run _ _ _ _ _ Hin) as (c' & cells & Hs' & Hc & Hf & _).
  destruct Hs as (_ & Hw & _), Hs' as (_ & Hw' & _).
  assert (c' = c) as -> by congruence.
  by rewrite (main_chain_stored _ _ _ _ _ _ Hc Hf) in Hrej.
Qed.

(** X9. When the main chain fails, whatever the step that failed, no cell
    array is stored: the stored cells of every sheet are what they were
    before the call. *)
Theorem failure_keeps_values (w : World) (s : State) (a : string)
    (c : SheetContract) (tr : list event) :
  starts_chain w s a c ->
  (main_chain w c (find_sheet s a) a).2 = Rejected ->
  schedule (load w s a) tr ->
  values (run_events s tr) = values s.
Proof.
  intros Hs Hrej Htr.
  eapply no_set_values_keeps_values; [|exact Htr].
  by eapply rejected_stores_nothing.
Qed.

(** X17. A failed load is not remembered: once the chain has settled, a
    call of [load] for the same address that sees the resulting state gets
    past the guards and starts the chain again. *)
Theorem failed_load_can_be_repeated (w : World) (s : State) (a : string)
    (c : SheetContract) (tr : list event) :
  starts_chain w s a c ->
  (main_chain w c (find_sheet s a) a).2 = Rejected ->
  schedule (load w s a) tr ->
  starts_chain w (run_events s tr) a c.
Proof.
  intros Hs Hrej Htr.
  destruct (status_settled _ _ _ _ _ Hs Htr) as (_ & flag & m & _ & Hst).
  pose proof (no_set_values_keeps_values _ _ _ _
                (rejected_stores_nothing _ _ _ _ Hs Hrej) Htr) as Hv.
  destruct Hs as (Ha & Hc & Hl & Hhas).
  repeat split; try done.
  - unfold is_loading. by rewrite Hst.
  - unfold has_values in *. by rewrite Hv.
Qed.

(** ** Other sheets *)

Lemma cells_promise_address (c : SheetContract) (sheet : option Sheet) a :
  Forall (fun e => keeps_other_sheets a e = true) (cells_promise c sheet a).1.
Proof.
  unfold cells_promise. destruct (has_calldata sheet); [constructor|].
  unfold fetch_cells, mbind, Promise_bind, and_then. simpl.
  destruct (renderCells c) as [rcs|]; simpl; [|constructor].
  constructor; [apply String.eqb_refl|].
  apply Promise_all_events. intros rc _.
  unfold fetch_cell, mbind, Promise_bind, and_then, await. simpl.
  destruct (getCell c (id rc)); simpl; repeat constructor.
Qed.

Lemma finalize_address (w : World) a (cells : list Cell) :
  Forall (fun e => keeps_other_sheets a e = true) (finalize w a cells).1.
Proof.
  unfold finalize, mbind, Promise_bind, and_then. simpl.
  constructor; [apply String.eqb_refl|].
  apply Promise_all_events. intros cell _.
  unfold with_abi, mbind, Promise_bind, and_then, await. simpl.
  destruct (resolvedContractAddress _ cell) as [r|]; simpl; [|constructor].
  destruct (getAbiForContract w (bn2hex r)); simpl; repeat constructor.
Qed.

Lemma chain_address (w : World) s a :
  Forall (fun e => keeps_other_sheets a e = true) (chain (load w s a)).
Proof.
  assert (Ha : String.eqb a a = true) by apply String.eqb_refl.
  destruct (load_cases w s a) as [->|[(_ & -> & _)|[c Hs]]]; [constructor..|].
  destruct (main_chain_outcome w c (find_sheet s a) a)
    as [cells out Hc Hf Hm|cells Hc Hf Hm|Hc Hm].
  - rewrite (chain_of_fulfilled _ _ _ _ tt Hs) by by rewrite Hm.
    rewrite Hm. cbn [fst]. rewrite !Forall_app. repeat split.
    + apply cells_promise_address.
    + apply finalize_address.
    + by repeat constructor.
    + by repeat constructor.
  - rewrite (chain_of_rejected _ _ _ _ Hs) by by rewrite Hm.
    rewrite Hm. cbn [fst]. rewrite !Forall_app. repeat split.
    + apply cells_promise_address.
    + apply finalize_address.
    + by repeat constructor.
  - rewrite (chain_of_rejected _ _ _ _ Hs) by by rewrite Hm.
    rewrite Hm. cbn [fst]. rewrite !Forall_app. repeat split.
    + apply cells_promise_address.
    + by repeat constructor.
Qed.

Lemma other_sheet_apply (s : State) a a' e :
  keeps_other_sheets a e = true -> a' <> a ->
  appStatus_sheets (apply_event s e) !! a' = appStatus_sheets s !! a' /\
  values (apply_event s e) !! a' = values s !! a'.
Proof.
  intros Hk Hne. destruct e as [x u| | | | | |x cells|]; simpl; try done.
  - apply String.eqb_eq in Hk as ->. unfold update_status.
    by rewrite lookup_insert_ne.
  - apply String.eqb_eq in Hk as ->. by rewrite lookup_insert_ne.
Qed.

Lemma other_sheet_run (s : State) a a' (l : list event) :
  Forall (fun e => keeps_other_sheets a e = true) l -> a' <> a ->
  appStatus_sheets (run_events s l) !! a' = appStatus_sheets s !! a' /\
  values (run_events s l) !! a' = values s !! a'.
Proof.
  intros Hl Hne. revert s.
  induction Hl as [|e l He _ IH]; intros s; simpl; [done|].
  destruct (IH (apply_event s e)) as [-> ->].
  by apply (other_sheet_apply _ a).
Qed.

(** X8. A load of one address never writes under another: whatever the
    answers of the collaborators and the order of the callbacks, the status
    and the stored cells of every other sheet are what they were. *)
Theorem other_sheets_untouched (w : World) (s : State) (a a' : string)
    (tr : list event) :
  schedule (load w s a) tr ->
  a' <> a ->
  appStatus_sheets (run_events s tr) !! a' = appStatus_sheets s !! a' /\
  values (run_events s tr) !! a' = values s !! a'.
Proof.
  intros Htr Hne. apply (other_sheet_run _ a); [|done].
  apply Forall_forall. intros e He.
  apply (schedule_elem_of _ _ _ Htr) in He.
  unfold all_events in He. rewrite !elem_of_app in He.
  destruct He as [He|[He|He]].
  - pose proof (sync_kinds w s a) as Hk. rewrite Forall_forall in Hk.
    by apply Hk in He as (_ & _ & _ & ?).
  - pose proof (metadata_events w s a) as Hk. rewrite Forall_forall in Hk.
    apply Hk in He. by destruct e.
  - pose proof (chain_address w s a) as Hk. rewrite Forall_forall in Hk.
    by apply Hk in He.
Qed.

(** ** The order of the callbacks *)

Lemma schedule_metadata_first (r : Run) :
  schedule r (sync r ++ metadata r ++ chain r).
Proof.
  exists (metadata r ++ chain r). split; [|done].
  induction (metadata r) as [|e l IH]; simpl.
  - induction (chain r); constructor; auto.
  - by constructor.
Qed.

Lemma sheets_of_any_schedule (w : World) s a (tr : list event) :
  schedule (load w s a) tr ->
  onsheet_sheets (run_events s tr)
  = onsheet_sheets (run_events s (metadata (load w s a))).
Proof.
  intros (m & Hm & ->). rewrite run_events_app.
  rewrite (run_events_interleave_r onsheet_sheets sheets_step _ _ _ _ Hm).
  - apply (run_events_view onsheet_sheets sheets_step).
    by destruct (sync_keeps_state w s a) as (_ & _ & ->).
  - eapply Forall_impl; [apply chain_kinds|].
    intros e [_ He]. by apply sheets_unseen.
Qed.

(** X20. The callback of the metadata lookup and the callbacks of the main
    chain do not interfere: every order in which they can run leaves the
    same shared state. *)
Theorem callbacks_commute (w : World) (s : State) (a : string)
    (tr1 tr2 : list event) :
  schedule (load w s a) tr1 ->
  schedule (load w s a) tr2 ->
  run_events s tr1 = run_events s tr2.
Proof.
  intros H1 H2. apply State_eq.
  - by rewrite (status_of_schedule _ _ _ _ H1), (status_of_schedule _ _ _ _ H2).
  - by rewrite (values_of_schedule _ _ _ _ H1), (values_of_schedule _ _ _ _ H2).
  - by rewrite (sheets_of_any_schedule _ _ _ _ H1),
               (sheets_of_any_schedule _ _ _ _ H2).
  - by rewrite (location_of_schedule _ _ _ _ H1),
               (location_of_schedule _ _ _ _ H2).
Qed.

(** ** The fetched cells in the grid *)

Lemma index_cells_last (l1 l2 : list Cell) (c : Cell) :
  (forall x, x ∈ l2 -> cell_key x <> cell_key c) ->
  index_cells (l1 ++ c :: l2) !! cell_key c = Some c.
Proof.
  intros Hl2. unfold index_cells. rewrite foldl_app. simpl.
  rewrite index_cells_foldl_None by done. apply lookup_insert_eq.
Qed.

Lemma index_cells_agree (l : list Cell) (m1 m2 : gmap (option Z) Cell)
    (k : option Z) :
  m1 !! k = m2 !! k ->
  foldl (fun prev cell => <[cell_key cell := cell]> prev) m1 l !! k
  = foldl (fun prev cell => <[cell_key cell := cell]> prev) m2 l !! k.
Proof.
  revert m1 m2. induction l as [|x l IH]; intros m1 m2 Hm; simpl; [done|].
  apply IH. destruct (decide (cell_key x = k)) as [->|Hne].
  - by rewrite !lookup_insert_eq.
  - by rewrite !lookup_insert_ne.
Qed.

Lemma index_cells_without (l1 l2 : list Cell) (c : Cell) (k : option Z) :
  k <> cell_key c ->
  index_cells (l1 ++ c :: l2) !! k = index_cells (l1 ++ l2) !! k.
Proof.
  intros Hk. unfold index_cells. rewrite !foldl_app. simpl.
  apply index_cells_agree. by rewrite lookup_insert_ne.
Qed.


(** X12. A fetched cell whose id does not read as a grid index
    ([parseInt(cell.id.toString())] is NaN, negative, or [GRID_SIZE] or
    more) has no place in the grid: the grid is the one of the other
    fetched cells. *)
Theorem stray_cell_is_dropped (l1 l2 : list Cell) (cell : Cell) :
  (forall n, parseInt (toString (id (rendered cell))) = Some n ->
             ~ (0 <= n < Z.of_nat GRID_SIZE)) ->
  grid_of (l1 ++ cell :: l2) = grid_of (l1 ++ l2).
Proof.
  intros Hout. unfold grid_of. apply list_fmap_ext.
  intros n i Hi. apply lookup_seq in Hi as [-> Hlt].
  rewrite index_cells_without; [done|].
  intros Hkey. symmetry in Hkey. apply Hout in Hkey. lia.
Qed.

(** ** The ABI of a stored cell *)

Lemma with_abi_fulfilled_abi (w : World) (array : list Cell) (cell out : Cell) :
  (with_abi w array cell).2 = Fulfilled out ->
  exists addr abi_map,
    resolvedContractAddress array cell = Fulfilled addr /\
    getAbiForContract w (bn2hex addr) = Fulfilled abi_map /\
    abi out = abi_map !! bn2hex (selector (data cell)).
Proof.
  unfold with_abi, mbind, Promise_bind, and_then, await. simpl.
  destruct (resolvedContractAddress array cell) as [r|]; simpl; [|discriminate].
  destruct (getAbiForContract w (bn2hex r)) as [abi_map|] eqn:Habi; simpl;
    [|discriminate].
  intros Heq. injection Heq as <-. by exists r, abi_map.
Qed.

(** X13. The [abi] of a stored cell is the entry, for the selector of the
    cell, of the ABI that was fetched at the resolved address of the cell.
    When that ABI has no entry for the selector the cell is stored all the
    same, without an [abi]. *)
Theorem stored_abi (w : World) (s : State) (a : string) (c : SheetContract)
    (cells out : list Cell) (i : nat) (cell : Cell) :
  starts_chain w s a c ->
  (cells_promise c (find_sheet s a) a).2 = Fulfilled cells ->
  SetValues a out ∈ chain (load w s a) ->
  grid_of cells !! i = Some cell ->
  exists entry addr abi_map,
    out !! i = Some entry /\
    resolvedContractAddress (grid_of cells) cell = Fulfilled addr /\
    getAbiForContract w (bn2hex addr) = Fulfilled abi_map /\
    abi entry = abi_map !! bn2hex (selector (data cell)).
Proof.
  intros Hs Hc Hin Hcell.
  pose proof (stored_by_chain _ _ _ _ _ _ Hs Hc Hin) as Hf.
  rewrite finalize_outcome in Hf. apply all_settled_Forall2 in Hf.
  destruct (Forall2_lookup_l _ _ _ i _ Hf Hcell) as (entry & Hentry & Hwith).
  simpl in Hwith.
  destruct (with_abi_fulfilled_abi _ _ _ _ Hwith) as (addr & abi_map & ? & ? & ?).
  by exists entry, addr, abi_map.
Qed.

(** X15. When the ABI lookup of one cell of the grid is rejected, the
    chain takes its error branch: the route is reset, no cell array is
    stored, and the stored cells are what they were. *)
Theorem abi_lookup_rejected (w : World) (s : State) (a : string)
    (c : SheetContract) (cells : list Cell) (i : nat) (cell : Cell)
    (addr : Z) :
  starts_chain w s a c ->
  (cells_promise c (find_sheet s a) a).2 = Fulfilled cells ->
  grid_of cells !! i = Some cell ->
  resolvedContractAddress (grid_of cells) cell = Fulfilled addr ->
  getAbiForContract w (bn2hex addr) = Rejected ->
  Navigate "/" ∈ chain (load w s a) /\
  (forall a' out, SetValues a' out ∉ all_events (load w s a)) /\
  (forall tr, schedule (load w s a) tr -> values (run_events s tr) = values s).
Proof.
  intros Hs Hc Hcell Hres Habi.
  assert (Hf : (finalize w a cells).2 = Rejected).
  { rewrite finalize_outcome. apply all_settled_rejected. exists cell.
    split; [by eapply list_elem_of_lookup_2|].
    unfold with_abi, mbind, Promise_bind, and_then, await. simpl.
    rewrite Hres. simpl. by rewrite Habi. }
  pose proof (not_stored_if_not_finalized _ _ _ _ _ Hs Hc Hf) as Hno.
  split; [|split; [done|]].
  - rewrite (chain_of_rejected _ _ _ _ Hs)
      by by rewrite (main_chain_not_finalized _ _ _ _ _ Hc Hf).
    rewrite elem_of_app, elem_of_cons. auto.
  - intros tr. by apply no_set_values_keeps_values.
Qed.

(** ** Failures of [getCell] *)

Lemma get_cell_requests_app (l k : list event) :
  get_cell_requests (l ++ k) = get_cell_requests l ++ get_cell_requests k.
Proof. apply omap_app. Qed.

Lemma get_cell_requests_fetch (c : SheetContract) (rcs : list CellRendered) :
  get_cell_requests (concat (fst <$> (fetch_cell c <$> rcs))) = id <$> rcs.
Proof.
  induction rcs as [|rc rcs IH]; csimpl; [done|].
  rewrite get_cell_requests_app, IH. f_equal.
  unfold fetch_cell, mbind, Promise_bind, and_then, await. simpl.
  by destruct (getCell c (id rc)).
Qed.

(** X14. When [getCell] is rejected for one of the rendered cells, the
    requests for all the rendered cells have been sent all the same, one
    per cell and in order; no ABI is asked for, the route is reset and no
    cell array is stored. *)
Theorem get_cell_rejected (w : World) (s : State) (a : string)
    (c : SheetContract) (rcs : list CellRendered) (rc : CellRendered) :
  starts_chain w s a c ->
  has_calldata (find_sheet s a) = false ->
  renderCells c = Fulfilled rcs ->
  rc ∈ rcs ->
  getCell c (id rc) = Rejected ->
  get_cell_requests (chain (load w s a)) = id <$> rcs /\
  abi_requests (chain (load w s a)) = [] /\
  Navigate "/" ∈ chain (load w s a) /\
  (forall a' out, SetValues a' out ∉ all_events (load w s a)).
Proof.
  intros Hs Hno Hrender Hrc Hcell.
  assert (Hev : (cells_promise c (find_sheet s a) a).1
                = UpdateSheetStatus a (status_message "Fetching cells metadata")
                  :: concat (fst <$> (fetch_cell c <$> rcs))).
  { unfold cells_promise. rewrite Hno.
    unfold fetch_cells, mbind, Promise_bind, and_then. simpl.
    by rewrite Hrender. }
  assert (Hrej : (cells_promise c (find_sheet s a) a).2 = Rejected).
  { unfold cells_promise. rewrite Hno.
    unfold fetch_cells, mbind, Promise_bind, and_then. simpl.
    rewrite Hrender. simpl. rewrite <- list_fmap_compose.
    apply all_settled_rejected. exists rc. split; [done|]. simpl.
    unfold fetch_cell, mbind, Promise_bind, and_then, await. simpl.
    by rewrite Hcell. }
  pose proof (main_chain_not_fetched w _ _ _ Hrej) as Hm.
  assert (Hmrej : (main_chain w c (find_sheet s a) a).2 = Rejected)
    by by rewrite Hm.
  rewrite (chain_of_rejected _ _ _ _ Hs Hmrej), Hm. cbn [fst].
  split; [|split; [|split]].
  - rewrite get_cell_requests_app, Hev.
    change (get_cell_requests (UpdateSheetStatus ?x ?u :: ?l))
      with (get_cell_requests l).
    rewrite get_cell_requests_fetch. apply app_nil_r.
  - rewrite abi_requests_app, abi_requests_cells_promise. done.
  - rewrite elem_of_app, elem_of_cons. auto.
  - by eapply rejected_stores_nothing.
Qed.

(** ** Sheets that are not deployed yet *)

Lemma all_settled_fulfilled {A B} (g : A -> B) (l : list A) :
  all_settled ((fun x => Fulfilled (g x)) <$> l) = Fulfilled (g <$> l).
Proof. induction l as [|x l IH]; csimpl; [done|]. by rewrite IH. Qed.

Lemma grid_of_nil : grid_of [] = (fun i : nat => defaultCell (Z.of_nat i))
                                   <$> seq 0 GRID_SIZE.
Proof.
  unfold grid_of. apply list_fmap_ext. intros n i _.
  unfold index_cells. simpl. by rewrite lookup_empty.
Qed.

Lemma finalize_placeholders (w : World) a (abi_map : gmap string FunctionAbi) :
  getAbiForContract w (bn2hex RC_BOUND) = Fulfilled abi_map ->
  (finalize w a []).2 = Fulfilled (stored_default abi_map <$> seq 0 GRID_SIZE).
Proof.
  intros Habi. rewrite finalize_outcome, grid_of_nil.
  rewrite <- list_fmap_compose.
  rewrite <- (all_settled_fulfilled (stored_default abi_map)).
  f_equal. apply list_fmap_ext. intros n i _. simpl.
  unfold with_abi, mbind, Promise_bind, and_then, await,
    resolvedContractAddress. simpl.
  rewrite Z.ltb_irrefl. simpl. by rewrite Habi.
Qed.

(** X10. For a known sheet that carries calldata (a sheet that is not
    deployed yet) the contract is not asked anything: no [renderCells], no
    [getCell], no name or symbol. The array that is stored, when the ABI at
    [RC_BOUND] can be fetched, is made of the [GRID_SIZE] placeholders. *)
Theorem sheet_with_calldata (w : World) (s : State) (a : string)
    (c : SheetContract) (sheet : Sheet) :
  starts_chain w s a c ->
  find_sheet s a = Some sheet ->
  is_Some (sheet_calldata sheet) ->
  count is_render_cells (all_events (load w s a)) = 0%nat /\
  count is_get_cell (all_events (load w s a)) = 0%nat /\
  count is_call_contract (all_events (load w s a)) = 0%nat /\
  (forall abi_map,
     getAbiForContract w (bn2hex RC_BOUND) = Fulfilled abi_map ->
     SetValues a (stored_default abi_map <$> seq 0 GRID_SIZE)
       ∈ chain (load w s a)).
Proof.
  intros Hs Hfind Hdata.
  assert (Hhas : has_calldata (find_sheet s a) = true).
  { rewrite Hfind. simpl. by apply bool_decide_eq_true. }
  assert (Hcp : cells_promise c (find_sheet s a) a = resolve []).
  { unfold cells_promise. by rewrite Hhas. }
  assert (Hzero : forall kind, request_kind kind ->
            (forall x, kind (GetAbiForContract x) = false) ->
            count kind (all_events (load w s a)) = 0%nat).
  { intros kind Hk Habi. unfold all_events.
    rewrite !count_app, count_metadata by done.
    assert (Hch : (count kind (chain (load w s a)) <= 0 + 0)%nat).
    { apply (count_chain _ _ _ _ c); try done.
      - by rewrite Hcp.
      - intros cells. by rewrite count_finalize_other. }
    assert (Hsync : count kind (sync (load w s a)) = 0%nat).
    { apply count_none. rewrite (load_starts _ _ _ _ Hs). cbn [sync].
      rewrite Hhas, Hfind. repeat constructor; by apply Hk. }
    lia. }
  split; [|split; [|split]].
  - by apply Hzero; [apply request_kind_render_cells|].
  - by apply Hzero; [apply request_kind_get_cell|].
  - by apply Hzero; [apply request_kind_call_contract|].
  - intros abi_map Habi.
    assert (Hc : (cells_promise c (find_sheet s a) a).2 = Fulfilled [])
      by by rewrite Hcp.
    rewrite (chain_of_stored _ _ _ _ _ _ Hs Hc
               (finalize_placeholders w a abi_map Habi)).
    rewrite elem_of_app, elem_of_cons. auto.
Qed.

(** ** Loading again *)

Lemma load_from_stored (w : World) s a :
  is_loading s a = false ->
  has_values s a = true ->
  chain (load w s a) = [] /\
  Forall (fun e => is_request e = false) (all_events (load w s a)).
Proof.
  intros Hl Hv. unfold all_events, load.
  destruct (String.eqb a ""); [by split|].
  destruct (contract w); [|by split].
  rewrite Hl, Hv. split; [done|]. by repeat constructor.
Qed.

(** X16. After a load that stored the cells, a call of [load] for the same
    address that sees the resulting state sends no request and starts no
    chain, provided the grid is not empty. With [GRID_SIZE = 0] the stored
    array is empty, it does not count as stored, and the call starts the
    chain again. *)
Theorem load_after_success (w w' : World) (s : State) (a : string)
    (c : SheetContract) (out : list Cell) (tr : list event) :
  starts_chain w s a c ->
  SetValues a out ∈ chain (load w s a) ->
  schedule (load w s a) tr ->
  ((0 < GRID_SIZE)%nat ->
   chain (load w' (run_events s tr) a) = [] /\
   Forall (fun e => is_request e = false)
          (all_events (load w' (run_events s tr) a))) /\
  (GRID_SIZE = 0%nat ->
   forall c', contract w' = Some c' -> starts_chain w' (run_events s tr) a c').
Proof.
  intros Hs Hin Htr.
  assert (Hall : SetValues a out ∈ all_events (load w s a)).
  { unfold all_events. rewrite !elem_of_app. auto. }
  destruct (set_values_in_run _ _ _ _ _ Hall) as (c' & cells & Hs' & Hc & Hf & _).
  assert (c' = c) as ->.
  { destruct Hs as (_ & ? & _), Hs' as (_ & ? & _). congruence. }
  pose proof (values_after_success _ _ _ _ _ _ _ Hs Hc Hf Htr) as Hv.
  pose proof (status_after_success _ _ _ _ _ _ _ Hs Hc Hf Htr) as Hst.
  apply finalize_fulfilled, Forall2_length in Hf.
  rewrite length_grid_of in Hf.
  assert (Hl : is_loading (run_events s tr) a = false).
  { unfold is_loading. by rewrite Hst. }
  assert (Hhas : has_values (run_events s tr) a
                 = negb (GRID_SIZE =? 0)%nat).
  { unfold has_values. by rewrite Hv, lookup_insert_eq, <- Hf. }
  split.
  - intros Hpos. apply load_from_stored; [done|].
    rewrite Hhas. by destruct (Nat.eqb_spec GRID_SIZE 0); [lia|].
  - intros Hzero c' Hc'. destruct Hs as (Ha & _).
    repeat split; try done. rewrite Hhas, Hzero. done.
Qed.

(** ** The sheet that is appended *)

Lemma register_sheet_appends (w : World) a sheet :
  AppendSheet sheet ∈ (register_sheet w a).1 ->
  (register_sheet w a).1 = [AppendSheet sheet] /\
  sheet_address sheet = a /\
  sheet_calldata sheet = None /\
  exists r1 r2,
    callContract w a "name" = Fulfilled r1 /\
    callContract w a "symbol" = Fulfilled r2 /\
    decode_result r1 = Some (name sheet) /\
    decode_result r2 = Some (symbol sheet).
Proof.
  unfold register_sheet, mbind, Promise_bind, and_then, Promise_all. simpl.
  destruct (callContract w a "name") as [r1|]; simpl;
    [|by intros ?%elem_of_nil].
  destruct (callContract w a "symbol") as [r2|]; simpl;
    [|by intros ?%elem_of_nil].
  destruct (decode_result r1) as [n|] eqn:Hn,
           (decode_result r2) as [sy|] eqn:Hsy; simpl;
    try by intros ?%elem_of_nil.
  intros Hin. apply list_elem_of_singleton in Hin. injection Hin as ->.
  repeat split; try done. by exists r1, r2.
Qed.

Lemma append_in_metadata (w : World) s a sheet :
  AppendSheet sheet ∈ all_events (load w s a) ->
  find_sheet s a = None /\ AppendSheet sheet ∈ (register_sheet w a).1 /\
  metadata (load w s a) = (register_sheet w a).1.
Proof.
  unfold all_events. rewrite !elem_of_app. intros [Hin|[Hin|Hin]].
  - pose proof (sync_kinds w s a) as Hk. rewrite Forall_forall in Hk.
    by apply Hk in Hin as (_ & _ & ? & _).
  - destruct (load_cases w s a) as [Hl|[(_ & _ & Hl)|[c Hs]]].
    + rewrite Hl in Hin. by apply elem_of_nil in Hin.
    + rewrite Hl in Hin. by apply elem_of_nil in Hin.
    + rewrite (load_starts _ _ _ _ Hs) in *. cbn [metadata] in *.
      destruct (find_sheet s a); [by apply elem_of_nil in Hin|done].
  - pose proof (chain_kinds w s a) as Hk. rewrite Forall_forall in Hk.
    by apply Hk in Hin as [_ ?].
Qed.

(** X18. A sheet is appended only whole: whenever a run of [load] appends
    a sheet, the address was not known, both lookups were answered, the
    name and the symbol of the sheet are what [hex2str] gives for the
    normalized first element of each answer, its address is the one [load]
    was called with, and it carries no calldata. When one of the lookups
    fails nothing is appended. *)
Theorem appended_sheet (w : World) (s : State) (a : string) (sheet : Sheet) :
  AppendSheet sheet ∈ all_events (load w s a) ->
  find_sheet s a = None /\
  sheet_address sheet = a /\
  sheet_calldata sheet = None /\
  exists r1 r2 hex_name hex_symbol,
    callContract w a "name" = Fulfilled r1 /\
    callContract w a "symbol" = Fulfilled r2 /\
    normalizeHexString (head r1) = Some hex_name /\
    hex2str hex_name = Some (name sheet) /\
    normalizeHexString (head r2) = Some hex_symbol /\
    hex2str hex_symbol = Some (symbol sheet).
Proof.
  intros Hin. apply append_in_metadata in Hin as (Hfind & Hin & _).
  split; [done|].
  apply register_sheet_appends
    in Hin as (_ & Haddr & Hdata & r1 & r2 & H1 & H2 & Hn & Hsy).
  split; [done|]. split; [done|].
  unfold decode_result in Hn, Hsy.
  apply bind_Some in Hn as (hn & Hhn & Hn).
  apply bind_Some in Hsy as (hsy & Hhsy & Hsy).
  by exists r1, r2, hn, hsy.
Qed.

Lemma known_sheet_no_calls (w : World) s a :
  is_Some (find_sheet s a) ->
  count is_call_contract (all_events (load w s a)) = 0%nat.
Proof.
  intros [sheet Hfind]. unfold all_events.
  rewrite !count_app, count_metadata by apply request_kind_call_contract.
  rewrite (count_none _ (chain (load w s a))).
  2:{ eapply Forall_impl; [apply chain_kinds|]. by intros e []. }
  rewrite count_none; [done|].
  unfold load. destruct (String.eqb a ""); [constructor|].
  destruct (contract w); [|constructor].
  destruct (is_loading s a); [constructor|].
  destruct (has_values s a); [by repeat constructor|].
  cbn [sync]. rewrite Hfind.
  destruct (has_calldata _); by repeat constructor.
Qed.

(** X19. The metadata of a sheet is looked up once: after a run of [load]
    that appended the sheet, a call of [load] for the same address that
    sees the resulting state makes no call for the name or the symbol. *)
Theorem metadata_looked_up_once (w w' : World) (s : State) (a : string)
    (sheet : Sheet) (tr : list event) :
  AppendSheet sheet ∈ all_events (load w s a) ->
  schedule (load w s a) tr ->
  count is_call_contract (all_events (load w' (run_events s tr) a)) = 0%nat.
Proof.
  intros Hin Htr. apply known_sheet_no_calls.
  apply append_in_metadata in Hin as (_ & Hin & Hmeta).
  apply register_sheet_appends in Hin as (Hreg & Haddr & _).
  apply (find_sheet_known _ _ sheet); [|done].
  rewrite (sheets_of_any_schedule _ _ _ _ Htr), Hmeta, Hreg. simpl.
  unfold append_sheet. rewrite elem_of_app, list_elem_of_singleton. auto.
Qed.

(** ** Events of a kind *)

Lemma count_zero_not_elem_of (kind : event -> bool) (l : list event) e :
  count kind l = 0%nat -> kind e = true -> e ∉ l.
Proof.
  unfold count. intros Hcount He Hin.
  assert (Hf : In e (List.filter kind l)).
  { apply List.filter_In. split; [by apply list_elem_of_In|done]. }
  destruct (List.filter kind l); [done|discriminate].
Qed.

End MoreProperties.

(** * The small sheet *)

Section SmallSheetFacts.
#[local] Existing Instance small_sheet.

Lemma good_world_starts :
  starts_chain good_world empty_state "0x1" good_contract.
Proof. repeat split; try reflexivity. discriminate. Qed.

Lemma failing_world_starts :
  starts_chain failing_world empty_state "0x1" failing_contract.
Proof. repeat split; try reflexivity. discriminate. Qed.

Lemma unnamed_world_starts :
  starts_chain unnamed_world empty_state "0x1" blank_contract.
Proof. repeat split; try reflexivity. discriminate. Qed.

(** C3. The claim fails on the code. When [renderCells] is rejected the
    failure is caught and the route is reset, but the status update that
    ends the chain carries [error: false]: once the chain has settled the
    sheet is not flagged as errored. When the lookup of the name is
    rejected, nothing catches it: no sheet is appended, the route is kept
    and the status is not flagged either. *)
Theorem failed_load_is_not_flagged :
  chain (load failing_world empty_state "0x1")
  = [Navigate "/";
     UpdateSheetStatus "0x1"
       {| set_loading := Some false; set_error := Some false;
          set_message := Some (error_message "0x1") |}] /\
  (forall tr, schedule (load failing_world empty_state "0x1") tr ->
     exists status,
       appStatus_sheets (run_events empty_state tr) !! "0x1" = Some status /\
       status_error status = false) /\
  metadata (load unnamed_world empty_state "0x1") = [] /\
  (Navigate "/" ∉ all_events (load unnamed_world empty_state "0x1")) /\
  (forall tr, schedule (load unnamed_world empty_state "0x1") tr ->
     exists status,
       appStatus_sheets (run_events empty_state tr) !! "0x1" = Some status /\
       status_error status = false).
Proof.
  split; [reflexivity|]. split; [|split; [reflexivity|split]].
  - intros tr. apply (error_flag_when_settled _ _ _ _ _ failing_world_starts).
  - apply (count_zero_not_elem_of is_navigate); [|done].
    vm_compute. reflexivity.
  - intros tr. apply (error_flag_when_settled _ _ _ _ _ unnamed_world_starts).
Qed.

Lemma stray_world_starts :
  starts_chain stray_world empty_state "0x1" stray_contract.
Proof. repeat split; try reflexivity. discriminate. Qed.

Lemma good_grid_is_stored :
  SetValues "0x1" good_grid ∈ chain (load good_world empty_state "0x1").
Proof. apply (list_elem_of_lookup_2 _ 11%nat). reflexivity. Qed.

(** The address of cell 1 is the value of cell 0. *)
Lemma abi_lookup_address_witness :
  starts_chain good_world empty_state "0x1" good_contract /\
  (cells_promise good_contract (find_sheet empty_state "0x1") "0x1").2
  = Fulfilled good_cells /\
  grid_of good_cells !! 1%nat = Some (fetched_cell 1 5 0) /\
  abi_address (grid_of good_cells) (fetched_cell 1 5 0) (2 ^ 130) /\
  GetAbiForContract (bn2hex (2 ^ 130))
    ∈ chain (load good_world empty_state "0x1").
Proof.
  assert (Hcell : grid_of good_cells !! 1%nat = Some (fetched_cell 1 5 0))
    by reflexivity.
  assert (Haddr : abi_address (grid_of good_cells) (fetched_cell 1 5 0)
                              (2 ^ 130)).
  { apply (abi_address_reference _ _ 0%nat (fetched_cell 0 (2 ^ 130) (2 ^ 129)));
      reflexivity. }
  split; [exact good_world_starts|]. split; [reflexivity|].
  split; [exact Hcell|]. split; [exact Haddr|].
  exact (proj2 (proj1 (abi_lookup_address good_world empty_state "0x1"
                         good_contract good_cells good_world_starts eq_refl)
                      1%nat (fetched_cell 1 5 0) (2 ^ 130) Hcell)
               Haddr).
Defined.

Lemma stored_cells_are_the_grid_witness :
  SetValues "0x1" good_grid ∈ all_events (load good_world empty_state "0x1") /\
  length good_grid = GRID_SIZE.
Proof.
  assert (Hin : SetValues "0x1" good_grid
                ∈ all_events (load good_world empty_state "0x1")).
  { unfold all_events. rewrite !elem_of_app. right. right.
    exact good_grid_is_stored. }
  split; [exact Hin|].
  exact (proj1 (proj2 (stored_cells_are_the_grid good_world empty_state
                         "0x1" "0x1" good_grid Hin))).
Defined.

Lemma failure_navigates_home_witness :
  starts_chain failing_world empty_state "0x1" failing_contract /\
  (main_chain failing_world failing_contract (find_sheet empty_state "0x1")
              "0x1").2 = Rejected /\
  location (run_events empty_state
              (sync (load failing_world empty_state "0x1")
               ++ chain (load failing_world empty_state "0x1")
               ++ metadata (load failing_world empty_state "0x1"))) = "/".
Proof.
  split; [exact failing_world_starts|]. split; [reflexivity|].
  exact (proj1 (proj1 (proj2 (proj2
           (failure_navigates_home failing_world empty_state "0x1"
              failing_contract failing_world_starts eq_refl)))
           _ (schedule_exists _))).
Defined.

Lemma known_state_starts :
  starts_chain good_world known_state "0x1" good_contract.
Proof. repeat split; try reflexivity. discriminate. Qed.

Lemma sheet_metadata_lookup_witness :
  starts_chain good_world empty_state "0x1" good_contract /\
  List.filter is_call_contract (all_events (load good_world empty_state "0x1"))
  = [CallContract "0x1" "name"; CallContract "0x1" "symbol"] /\
  metadata (load good_world empty_state "0x1")
  = [AppendSheet {| name := "Sheet"; symbol := "SHT";
                    sheet_address := "0x1"; sheet_calldata := None |}] /\
  starts_chain good_world known_state "0x1" good_contract /\
  List.filter is_call_contract (all_events (load good_world known_state "0x1"))
  = [].
Proof.
  assert (Hunknown : forall sheet,
            sheet ∈ onsheet_sheets empty_state -> sheet_address sheet <> "0x1").
  { intros sheet Hin. by apply elem_of_nil in Hin. }
  pose proof (proj1 (sheet_metadata_lookup good_world empty_state "0x1"
                       good_contract good_world_starts) Hunknown) as Hfresh.
  split; [exact good_world_starts|]. split; [exact (proj1 Hfresh)|].
  split.
  { exact (proj1 (proj2 Hfresh ["5368656574"] ["0x534854"]
                    "0x5368656574" "0x534854" "Sheet" "SHT"
                    eq_refl eq_refl eq_refl eq_refl eq_refl eq_refl)). }
  split; [exact known_state_starts|].
  refine (proj1 (proj2 (sheet_metadata_lookup good_world known_state "0x1"
                          good_contract known_state_starts) _)).
  eexists. split; [apply list_elem_of_singleton; reflexivity | reflexivity].
Defined.


Lemma stored_values_are_kept_witness :
  values stored_state !! "0x1" = Some good_grid /\
  Forall (fun e => is_request e = false)
         (all_events (load good_world stored_state "0x1")).
Proof.
  split; [reflexivity|].
  refine (proj1 (proj2 (stored_values_are_kept good_world stored_state "0x1"
                          good_contract good_grid _ eq_refl eq_refl eq_refl _)));
    discriminate.
Defined.

Lemma missing_cell_is_default_witness :
  starts_chain good_world empty_state "0x1" good_contract /\
  (2 < GRID_SIZE)%nat /\
  exists entry,
    good_grid !! 2%nat = Some entry /\
    rendered entry
    = {| id := number_id 2; owner := 0; value := 0; error := None |} /\
    data entry
    = {| contractAddress := RC_BOUND; selector := 0; calldata := [] |} /\
    resolvedContractAddress (grid_of good_cells) entry = Fulfilled RC_BOUND.
Proof.
  assert (Hi : (2 < GRID_SIZE)%nat) by (simpl; lia).
  split; [exact good_world_starts|]. split; [exact Hi|].
  refine (missing_cell_is_default good_world empty_state "0x1" good_contract
            good_cells good_grid 2%nat good_world_starts eq_refl
            good_grid_is_stored Hi _).
  intros cell Hin.
  repeat (apply elem_of_cons in Hin as [->|Hin];
          [intros Hkey; vm_compute in Hkey; discriminate Hkey|]).
  by apply elem_of_nil in Hin.
Defined.

Lemma huge_world_starts :
  starts_chain huge_world empty_state "0x1" huge_contract.
Proof. repeat split; try reflexivity. discriminate. Qed.

Lemma huge_grid_is_stored :
  SetValues "0x1" huge_grid ∈ chain (load huge_world empty_state "0x1").
Proof. apply (list_elem_of_lookup_2 _ 9%nat). reflexivity. Qed.

(** C8, as it was stated, fails. The only fetched cell has the id [10^21]:
    no fetched cell has the id 1. The id prints as ["1e+21"], which
    [parseInt] reads as 1, so the entry stored at index 1 is the fetched
    cell, whose owner is 1, and not the placeholder. *)
Lemma missing_cell_counterexample :
  ~ (forall (w : World) (s : State) (a : string) (c : SheetContract)
            (cells out : list Cell) (i : nat),
       starts_chain w s a c ->
       (cells_promise c (find_sheet s a) a).2 = Fulfilled cells ->
       SetValues a out ∈ chain (load w s a) ->
       (i < GRID_SIZE)%nat ->
       (forall cell, cell ∈ cells ->
          id (rendered cell) <> number_id (Z.of_nat i)) ->
       exists entry,
         out !! i = Some entry /\
         rendered entry
         = {| id := number_id (Z.of_nat i); owner := 0; value := 0;
              error := None |}).
Proof.
  intros Hclaim.
  destruct (Hclaim huge_world empty_state "0x1" huge_contract [huge_cell]
              huge_grid 1%nat huge_world_starts eq_refl huge_grid_is_stored)
    as (entry & Hentry & Hrendered).
  - simpl. lia.
  - intros cell Hin. apply list_elem_of_singleton in Hin as ->.
    intros Hid. vm_compute in Hid. discriminate Hid.
  - simpl in Hentry. injection Hentry as <-.
    apply (f_equal owner) in Hrendered. discriminate Hrendered.
Qed.


Lemma loading_reset_when_settled_witness :
  starts_chain good_world empty_state "0x1" good_contract /\
  exists status,
    appStatus_sheets
      (run_events empty_state
         (sync (load good_world empty_state "0x1")
          ++ chain (load good_world empty_state "0x1")
          ++ metadata (load good_world empty_state "0x1"))) !! "0x1"
    = Some status /\
    loading status = false.
Proof.
  split; [exact good_world_starts|].
  exact (proj2 (loading_reset_when_settled good_world empty_state "0x1"
                  good_contract good_world_starts)
               _ (schedule_exists _)).
Defined.

Lemma reference_out_of_grid_witness :
  starts_chain stray_world empty_state "0x1" stray_contract /\
  (cells_promise stray_contract (find_sheet empty_state "0x1") "0x1").2
  = Fulfilled stray_cells /\
  grid_of stray_cells !! 1%nat = Some (fetched_cell 1 5 6) /\
  resolvedContractAddress (grid_of stray_cells) (fetched_cell 1 5 6)
  = Rejected /\
  Navigate "/" ∈ chain (load stray_world empty_state "0x1").
Proof.
  assert (Hcell : grid_of stray_cells !! 1%nat = Some (fetched_cell 1 5 6))
    by reflexivity.
  assert (Hlt : contractAddress (data (fetched_cell 1 5 6)) < RC_BOUND)
    by reflexivity.
  assert (Hout : ~ (0 <= contractAddress (data (fetched_cell 1 5 6))
                    < Z.of_nat GRID_SIZE)) by (simpl; lia).
  split; [exact stray_world_starts|]. split; [reflexivity|].
  split; [exact Hcell|].
  pose proof (proj1 (reference_out_of_grid stray_world empty_state "0x1"
                       stray_contract stray_cells stray_world_starts eq_refl)
                    1%nat (fetched_cell 1 5 6) Hcell Hlt Hout) as Hthm.
  split; [exact (proj1 (proj2 Hthm)) | exact (proj1 (proj2 (proj2 Hthm)))].
Defined.

End SmallSheetFacts.

(** * The small sheet, continued *)

Section SmallSheetMore.
#[local] Existing Instance small_sheet.

Lemma loaded_state_status :
  appStatus_sheets loaded_state !! "0x1"
  = Some {| loading := false; status_error := false; message := "" |}.
Proof. vm_compute. reflexivity. Qed.

Lemma loaded_state_values : values loaded_state !! "0x1" = Some good_grid.
Proof. reflexivity. Qed.

Lemma good_load_in_flight :
  in_flight (load good_world empty_state "0x1")
            (sync (load good_world empty_state "0x1")).
Proof.
  exists [], [], (metadata (load good_world empty_state "0x1")),
         (chain (load good_world empty_state "0x1")), [].
  split; [reflexivity|]. split; [reflexivity|].
  split; [intros Hnil; apply (f_equal length) in Hnil;
          vm_compute in Hnil; discriminate Hnil|].
  split; [apply interleave_nil | by rewrite app_nil_r].
Qed.

Lemma good_cells_finalized :
  (finalize good_world "0x1" good_cells).2 = Fulfilled good_grid.
Proof. reflexivity. Qed.

Lemma failing_world_rejected :
  (main_chain failing_world failing_contract (find_sheet empty_state "0x1")
              "0x1").2 = Rejected.
Proof. reflexivity. Qed.

Lemma column_letters_witness :
  (2 < N_COL)%nat /\ (2 < 26)%nat /\ colNames !! 2%nat = Some "C".
Proof.
  assert (Hcol : (2 < N_COL)%nat) by (simpl; lia).
  assert (Hletter : (2 < 26)%nat) by lia.
  split; [exact Hcol|]. split; [exact Hletter|].
  exact (column_letters 2 Hcol Hletter).
Defined.


Lemma rows_shape_witness :
  "0x1" <> "" /\
  length good_grid = GRID_SIZE /\
  length (SheetTable_rows loaded_state "0x1") = N_ROW.
Proof.
  assert (Ha : "0x1" <> "") by discriminate.
  assert (Hlen : length good_grid = GRID_SIZE) by reflexivity.
  split; [exact Ha|]. split; [exact Hlen|].
  exact (proj1 (rows_shape loaded_state "0x1" _ good_grid Ha
                  loaded_state_status eq_refl loaded_state_values Hlen)).
Defined.

Lemma rows_are_the_cells_witness :
  GRID_SIZE = (N_COL * N_ROW)%nat /\
  "0x1" <> "" /\
  length good_grid = GRID_SIZE /\
  concat (row_cells <$> SheetTable_rows loaded_state "0x1")
  = Some <$> good_grid.
Proof.
  assert (Hsize : GRID_SIZE = (N_COL * N_ROW)%nat) by reflexivity.
  assert (Ha : "0x1" <> "") by discriminate.
  assert (Hlen : length good_grid = GRID_SIZE) by reflexivity.
  split; [exact Hsize|]. split; [exact Ha|]. split; [exact Hlen|].
  exact (rows_are_the_cells loaded_state "0x1" _ good_grid Hsize Ha
           loaded_state_status eq_refl loaded_state_values Hlen).
Defined.


Lemma state_after_success_witness :
  starts_chain good_world empty_state "0x1" good_contract /\
  (finalize good_world "0x1" good_cells).2 = Fulfilled good_grid /\
  values loaded_state = <["0x1" := good_grid]> (values empty_state).
Proof.
  split; [exact good_world_starts|]. split; [exact good_cells_finalized|].
  exact (proj1 (state_after_success good_world empty_state "0x1"
                  good_contract good_cells good_grid _ good_world_starts
                  eq_refl good_cells_finalized (schedule_exists _))).
Defined.

Lemma other_sheets_untouched_witness :
  "0x2" <> "0x1" /\
  values loaded_state !! "0x2" = values empty_state !! "0x2".
Proof.
  assert (Hne : "0x2" <> "0x1") by discriminate.
  split; [exact Hne|].
  exact (proj2 (other_sheets_untouched good_world empty_state "0x1" "0x2" _
                  (schedule_exists _) Hne)).
Defined.

Lemma failure_keeps_values_witness :
  starts_chain failing_world empty_state "0x1" failing_contract /\
  values (run_events empty_state
            (sync (load failing_world empty_state "0x1")
             ++ chain (load failing_world empty_state "0x1")
             ++ metadata (load failing_world empty_state "0x1")))
  = values empty_state.
Proof.
  split; [exact failing_world_starts|].
  exact (failure_keeps_values failing_world empty_state "0x1"
           failing_contract _ failing_world_starts failing_world_rejected
           (schedule_exists _)).
Defined.

Lemma failed_load_can_be_repeated_witness :
  starts_chain failing_world empty_state "0x1" failing_contract /\
  starts_chain failing_world
    (run_events empty_state
       (sync (load failing_world empty_state "0x1")
        ++ chain (load failing_world empty_state "0x1")
        ++ metadata (load failing_world empty_state "0x1")))
    "0x1" failing_contract.
Proof.
  split; [exact failing_world_starts|].
  exact (failed_load_can_be_repeated failing_world empty_state "0x1"
           failing_contract _ failing_world_starts failing_world_rejected
           (schedule_exists _)).
Defined.

Lemma callbacks_commute_witness :
  schedule (load good_world empty_state "0x1")
    (sync (load good_world empty_state "0x1")
     ++ metadata (load good_world empty_state "0x1")
     ++ chain (load good_world empty_state "0x1")) /\
  loaded_state
  = run_events empty_state
      (sync (load good_world empty_state "0x1")
       ++ metadata (load good_world empty_state "0x1")
       ++ chain (load good_world empty_state "0x1")).
Proof.
  split; [exact (schedule_metadata_first _)|].
  exact (callbacks_commute good_world empty_state "0x1" _ _
           (schedule_exists _) (schedule_metadata_first _)).
Defined.

Lemma calldata_state_starts :
  starts_chain good_world calldata_state "0x1" good_contract.
Proof. repeat split; try reflexivity. discriminate. Qed.

Lemma sheet_with_calldata_witness :
  starts_chain good_world calldata_state "0x1" good_contract /\
  is_Some (Some tt) /\
  count is_render_cells (all_events (load good_world calldata_state "0x1"))
  = 0%nat /\
  SetValues "0x1" (stored_default {[ "0x7" := "transfer" ]} <$> seq 0 GRID_SIZE)
    ∈ chain (load good_world calldata_state "0x1").
Proof.
  assert (Hdata : is_Some (Some tt)) by (exists tt; reflexivity).
  pose proof (sheet_with_calldata good_world calldata_state "0x1"
                good_contract _ calldata_state_starts eq_refl Hdata) as Hthm.
  split; [exact calldata_state_starts|]. split; [exact Hdata|].
  split; [exact (proj1 Hthm)|].
  exact (proj2 (proj2 (proj2 Hthm)) _ eq_refl).
Defined.

Lemma twice_world_starts :
  starts_chain twice_world empty_state "0x1" twice_contract.
Proof. repeat split; try reflexivity. discriminate. Qed.

Lemma twice_grid_is_stored :
  SetValues "0x1" twice_grid ∈ chain (load twice_world empty_state "0x1").
Proof. apply (list_elem_of_lookup_2 _ 10%nat). reflexivity. Qed.


Lemma stray_cell_is_dropped_witness :
  parseInt (toString (id (rendered (fetched_cell 9 1 0)))) = Some 9 /\
  grid_of ([fetched_cell 0 1 5] ++ fetched_cell 9 1 0 :: [])
  = grid_of ([fetched_cell 0 1 5] ++ []).
Proof.
  assert (Hkey : parseInt (toString (id (rendered (fetched_cell 9 1 0))))
                 = Some 9) by reflexivity.
  assert (Hout : forall n,
            parseInt (toString (id (rendered (fetched_cell 9 1 0)))) = Some n ->
            ~ (0 <= n < Z.of_nat GRID_SIZE)).
  { intros n Hn. rewrite Hkey in Hn. injection Hn as <-. simpl. lia. }
  split; [exact Hkey|].
  exact (stray_cell_is_dropped [fetched_cell 0 1 5] [] _ Hout).
Defined.

Lemma stored_abi_witness :
  starts_chain good_world empty_state "0x1" good_contract /\
  grid_of good_cells !! 1%nat = Some (fetched_cell 1 5 0) /\
  exists entry addr abi_map,
    good_grid !! 1%nat = Some entry /\
    resolvedContractAddress (grid_of good_cells) (fetched_cell 1 5 0)
    = Fulfilled addr /\
    getAbiForContract good_world (bn2hex addr) = Fulfilled abi_map /\
    abi entry = abi_map !! bn2hex (selector (data (fetched_cell 1 5 0))).
Proof.
  assert (Hcell : grid_of good_cells !! 1%nat = Some (fetched_cell 1 5 0))
    by reflexivity.
  split; [exact good_world_starts|]. split; [exact Hcell|].
  exact (stored_abi good_world empty_state "0x1" good_contract good_cells
           good_grid 1%nat _ good_world_starts eq_refl good_grid_is_stored
           Hcell).
Defined.

Lemma deaf_world_starts :
  starts_chain deaf_world empty_state "0x1" deaf_contract.
Proof. repeat split; try reflexivity. discriminate. Qed.

Lemma get_cell_rejected_witness :
  starts_chain deaf_world empty_state "0x1" deaf_contract /\
  getCell deaf_contract (id (rendered_cell 1 2)) = Rejected /\
  get_cell_requests (chain (load deaf_world empty_state "0x1"))
  = [number_id 0; number_id 1; number_id 3] /\
  abi_requests (chain (load deaf_world empty_state "0x1")) = [].
Proof.
  assert (Hin : rendered_cell 1 2
                ∈ [rendered_cell 0 1; rendered_cell 1 2; rendered_cell 3 4]).
  { apply elem_of_cons. right. apply elem_of_cons. by left. }
  pose proof (get_cell_rejected deaf_world empty_state "0x1" deaf_contract
                _ _ deaf_world_starts eq_refl eq_refl Hin eq_refl) as Hthm.
  split; [exact deaf_world_starts|]. split; [reflexivity|].
  split; [exact (proj1 Hthm) | exact (proj1 (proj2 Hthm))].
Defined.

Lemma mute_world_starts :
  starts_chain mute_world empty_state "0x1" blank_contract.
Proof. repeat split; try reflexivity. discriminate. Qed.

Lemma abi_lookup_rejected_witness :
  starts_chain mute_world empty_state "0x1" blank_contract /\
  getAbiForContract mute_world (bn2hex RC_BOUND) = Rejected /\
  Navigate "/" ∈ chain (load mute_world empty_state "0x1").
Proof.
  split; [exact mute_world_starts|]. split; [reflexivity|].
  exact (proj1 (abi_lookup_rejected mute_world empty_state "0x1"
                  blank_contract [] 0%nat (defaultCell 0) RC_BOUND
                  mute_world_starts eq_refl eq_refl eq_refl eq_refl)).
Defined.

Lemma load_after_success_witness :
  starts_chain good_world empty_state "0x1" good_contract /\
  (0 < GRID_SIZE)%nat /\
  chain (load failing_world loaded_state "0x1") = [].
Proof.
  assert (Hpos : (0 < GRID_SIZE)%nat) by (simpl; lia).
  split; [exact good_world_starts|]. split; [exact Hpos|].
  exact (proj1 (proj1 (load_after_success good_world failing_world
                         empty_state "0x1" good_contract good_grid _
                         good_world_starts good_grid_is_stored
                         (schedule_exists _))
                      Hpos)).
Defined.

Lemma good_sheet_is_appended :
  AppendSheet {| name := "Sheet"; symbol := "SHT";
                 sheet_address := "0x1"; sheet_calldata := None |}
    ∈ all_events (load good_world empty_state "0x1").
Proof. apply (list_elem_of_lookup_2 _ 5%nat). reflexivity. Qed.

Lemma appended_sheet_witness :
  AppendSheet {| name := "Sheet"; symbol := "SHT";
                 sheet_address := "0x1"; sheet_calldata := None |}
    ∈ all_events (load good_world empty_state "0x1") /\
  find_sheet empty_state "0x1" = None /\
  exists r1 r2 hex_name hex_symbol,
    callContract good_world "0x1" "name" = Fulfilled r1 /\
    callContract good_world "0x1" "symbol" = Fulfilled r2 /\
    normalizeHexString (head r1) = Some hex_name /\
    hex2str hex_name = Some "Sheet" /\
    normalizeHexString (head r2) = Some hex_symbol /\
    hex2str hex_symbol = Some "SHT".
Proof.
  pose proof (appended_sheet good_world empty_state "0x1" _
                good_sheet_is_appended) as Hthm.
  split; [exact good_sheet_is_appended|].
  split; [exact (proj1 Hthm) | exact (proj2 (proj2 (proj2 Hthm)))].
Defined.

Lemma metadata_looked_up_once_witness :
  AppendSheet {| name := "Sheet"; symbol := "SHT";
                 sheet_address := "0x1"; sheet_calldata := None |}
    ∈ all_events (load good_world empty_state "0x1") /\
  count is_call_contract (all_events (load failing_world loaded_state "0x1"))
  = 0%nat.
Proof.
  split; [exact good_sheet_is_appended|].
  exact (metadata_looked_up_once good_world failing_world empty_state "0x1"
           _ _ good_sheet_is_appended (schedule_exists _)).
Defined.

End SmallSheetMore.
